(** * Trivia quiz runner: question-bank loader and session state machine

    A shallow embedding of [src/script.js] (the current page script) and of
    the earlier revision of the same script kept beside it.  The two files
    share [parseCSV], [csvToQuestions], [shuffleArray], the start / reset /
    next handlers and [renderStandings]; they differ in how an answer is
    submitted (a team click scores at once in the earlier revision, a
    separate submit button does in the current one).

    Conventions of the embedding:
    - JavaScript numbers that the program only ever uses as integers are [Z];
      [NaN] is a separate constructor where the program can produce it;
    - a CSV record (a JS object keyed by header name) is a [gmap string string];
      an absent key reads as [undefined], i.e. [None];
    - the page state is the [state] object plus the few DOM flags the
      handlers read or write (which buttons exist, which are disabled);
    - arrays that are copied or mutated in place live in an explicit store. *)

From Stdlib Require Import ZArith String Ascii List Lia.
From stdpp Require Import base option list gmap strings pretty sorting.

Local Open Scope string_scope.
Local Open Scope Z_scope.
Local Open Scope list_scope.

(** ** JavaScript primitives used by the loader *)

Module Js.

(** ASCII members of the ECMAScript [WhiteSpace] and [LineTerminator] classes
    (TAB, LF, VT, FF, CR, SP).  The non-ASCII members (U+00A0, U+FEFF,
    U+2028, ...), which [trim] and [parseInt] strip as well, are not
    represented: strings here are byte strings, and on a text that holds
    such a character next to a cell the model keeps it where the engine
    removes it. *)
Definition is_ws (c : ascii) : bool :=
  match N_of_ascii c with
  | 9%N | 10%N | 11%N | 12%N | 13%N | 32%N => true
  | _ => false
  end.

Fixpoint skip_ws (s : string) : string :=
  match s with
  | String c s' => if is_ws c then skip_ws s' else s
  | EmptyString => s
  end.

(** Value of a radix-10 digit. *)
Definition digit_of (c : ascii) : option Z :=
  let n := Z.of_N (N_of_ascii c) in
  if (48 <=? n) && (n <=? 57) then Some (n - 48) else None.

(** Longest prefix of decimal digits, read as an integer; [acc] is [None]
    until a first digit has been seen. *)
Fixpoint digits_prefix (acc : option Z) (s : string) : option Z :=
  match s with
  | String c s' =>
      match digit_of c with
      | Some d => digits_prefix (Some (10 * default 0 acc + d)) s'
      | None => acc
      end
  | EmptyString => acc
  end.

(** [parseInt(v, 10)].  The argument is first converted with [ToString], so
    [undefined] is read as the text "undefined"; leading white space is
    skipped, one sign is accepted, then the longest run of decimal digits is
    taken.  [None] is [NaN].  The result is kept exact; in the engine it is
    the nearest double, which is the same number up to 2^53.  Beyond that
    the engine rounds (9007199254740993 is read as 9007199254740992) and,
    from about 309 digits on, answers plus or minus [Infinity], which the
    model does not hold: statements about the value of a parse are made for
    integers up to 2^53 - 1 in absolute value. *)
Definition parseInt (v : option string) : option Z :=
  let s := skip_ws (default "undefined" v) in
  let '(sign, body) :=
    match s with
    | String "-" r => (-1, r)
    | String "+" r => (1, r)
    | _ => (1, s)
    end in
  (fun n => sign * n) <$> digits_prefix None body.

(** [x || d] for a number [x]: [NaN] and [0] are the falsy numbers. *)
Definition or_num (x : option Z) (d : Z) : Z :=
  match x with
  | Some n => if n =? 0 then d else n
  | None => d
  end.

(** [x || ""] for a string or [undefined]. *)
Definition or_empty (x : option string) : string := default "" x.

(** Truthiness of a string. *)
Definition truthy_str (s : string) : bool := negb (String.eqb s "").

(** [s.trim()], for the ASCII white space above. *)
Definition trim (s : string) : string :=
  String.rev (skip_ws (String.rev (skip_ws s))).

(** [l[i]] for a numeric index that may be negative: [undefined] out of range. *)
Definition index {A} (l : list A) (i : Z) : option A :=
  if i <? 0 then None else l !! Z.to_nat i.

End Js.

(** ** Question bank loader *)

Definition DEFAULT_POINTS : Z := 10.

Record Question := {
  text : string;
  options : list string;
  correctIndex : Z;
  points : Z
}.

(** The callback given to [records.map] in [csvToQuestions]. *)
Definition toQuestion (r : gmap string string) : Question :=
  let correctIndex :=
    Z.max 0 (Z.min 3 (Js.or_num (Js.parseInt (r !! "correctIndex")) 1 - 1)) in
  let points := Js.or_num (Js.parseInt (r !! "points")) DEFAULT_POINTS in
  {| text := Js.or_empty (r !! "question");
     options := map Js.or_empty
                  [r !! "option1"; r !! "option2"; r !! "option3"; r !! "option4"];
     correctIndex := correctIndex;
     points := points |}.

(** The callback given to [.filter] in [csvToQuestions]. *)
Definition keepQuestion (q : Question) : bool :=
  Js.truthy_str (text q)
  && (length (options q) =? 4)%nat
  && forallb (fun o => negb (String.eqb o "")) (options q).

Definition csvToQuestions (records : list (gmap string string)) : list Question :=
  List.filter keepQuestion (map toQuestion records).


(** ** [shuffleArray]: Fisher-Yates on a copy *)

(** One result of [Math.random()]: a number in the half-open interval from 0
    to 1, kept as the fraction [numer / denom] with [numer < denom]. *)
Record draw := {
  numer : nat;
  denom : nat;
  draw_below_one : (numer <? denom)%nat = true
}.

(** [Math.floor(u * n)] *)
Definition floor_scaled (u : draw) (n : nat) : nat :=
  ((numer u * n) / denom u)%nat.

Section Shuffle.
Context {A : Type}.

(** [[a[i], a[j]] = [a[j], a[i]]]: both reads happen before both writes.
    Outside the array JavaScript would read [undefined] and grow the
    array, which a [list A] cannot hold: there the model answers [None],
    and the loop below is shown never to get there. *)
Definition swap (a : list A) (i j : nat) : option (list A) :=
  match a !! i, a !! j with
  | Some x, Some y => Some (<[j := x]> (<[i := y]> a))
  | _, _ => None
  end.

(** The [for] loop as a function on the array contents.  [k] counts the
    calls to [Math.random] made so far; the loop variable runs from [i]
    down to 1. *)
Fixpoint fisher_yates (rnd : nat → draw) (k i : nat) (a : list A)
    : option (list A) :=
  match i with
  | O => Some a
  | S i' =>
      let j := floor_scaled (rnd k) (i + 1) in
      match swap a i j with
      | Some a' => fisher_yates rnd (S k) i' a'
      | None => None
      end
  end.

(** The same loop run in place on the array stored at reference [a]. *)
Fixpoint shuffle_loop (rnd : nat → draw) (k i : nat)
    (h : gmap nat (list A)) (a : nat) : option (gmap nat (list A)) :=
  match i with
  | O => Some h
  | S i' =>
      let j := floor_scaled (rnd k) (i + 1) in
      match h !! a with
      | Some l =>
          match swap l i j with
          | Some l' => shuffle_loop rnd (S k) i' (<[a := l']> h) a
          | None => None
          end
      | None => None
      end
  end.

(** [shuffleArray(arr)] in a store [h] of arrays: [const a = [...arr]]
    allocates a fresh array holding the elements of [arr], the loop
    permutes that copy, and the reference to the copy is returned together
    with the new store.  Spreading something that is not in the store
    throws ([None]). *)
Definition shuffleArray (rnd : nat → draw) (h : gmap nat (list A)) (arr : nat)
    : option (nat * gmap nat (list A)) :=
  match h !! arr with
  | None => None
  | Some l =>
      let a := fresh (dom h) in
      match shuffle_loop rnd 0 (length l - 1) (<[a := l]> h) a with
      | Some h' => Some (a, h')
      | None => None
      end
  end.

(** The contents of the array [shuffleArray] returns, for a caller that
    holds the result by value. *)
Definition shuffled (rnd : nat → draw) (l : list A) : list A :=
  default l (fisher_yates rnd 0 (length l - 1) l).
End Shuffle.

(** ** Session state *)

(** A score is a JavaScript number: [+=] on a missing entry gives [NaN].
    Sums are kept exact; the engine rounds them beyond 2^53, and with
    points of about 309 digits it reaches [Infinity] and from there [NaN],
    which is outside the model. *)
Inductive num := Int (z : Z) | NaN.

Record Team := { id : string; name : string }.

(** The global [state] object. *)
Record State := {
  questions : list Question;
  currentIndex : Z;
  teams : list Team;
  scores : gmap string num;
  answeredCount : gmap string Z;
  correctCount : gmap string Z;
  selectedOptionIndex : option Z;
  selectedTeamId : option string;
  quizStarted : bool
}.

(** One row of the standings table. *)
Record Row := {
  row_id : string;
  row_name : string;
  score : Z;
  answered : Z;
  correct : Z
}.

(** The part of the document the handlers read or write. *)
Record Ui := {
  optionButtons : nat;        (* number of .option-btn children of #options *)
  optionsDisabled : bool;     (* their [disabled] flag; always set together *)
  teamButtons : list string;  (* data-team-id of the .team-btn children *)
  submitDisabled : bool;      (* [disabled] flag of #submit-answer-btn *)
  standingsBody : list Row    (* rows of #standings-body, top to bottom *)
}.

Record Page := { st : State; ui : Ui }.

(** The two revisions of the script. *)
Variant revision := Current | Earlier.

(** A handler either runs to its end or stops at an uncaught exception; in
    both cases the page is left as the handler had made it so far. *)
Inductive outcome := Done (p : Page) | Throws (p : Page).

Definition settle (o : outcome) : Page :=
  match o with Done p | Throws p => p end.

Definition and_then (o : outcome) (f : Page → outcome) : outcome :=
  match o with Done p => f p | Throws p => Throws p end.

(** *** Standings *)

(** [Array.prototype.sort] with a comparator.  The sort is stable
    (ECMAScript 2019), so for a consistent comparator its result is the one
    a stable insertion sort gives: [x] goes after [y] exactly when
    [cmp x y > 0]. *)
Fixpoint insert_by {A} (cmp : A → A → Z) (x : A) (l : list A) : list A :=
  match l with
  | [] => [x]
  | y :: l' => if 0 <? cmp x y then y :: insert_by cmp x l' else x :: l
  end.

Definition sort_by {A} (cmp : A → A → Z) (l : list A) : list A :=
  foldr (insert_by cmp) [] l.

(** [state.scores[id] || 0] *)
Definition score_or_0 (x : option num) : Z :=
  match x with Some (Int z) => z | _ => 0 end.

(** [state.answeredCount[id] || 0] *)
Definition count_or_0 (x : option Z) : Z := default 0 x.

Definition standingsRow (s : State) (t : Team) : Row :=
  {| row_id := id t;
     row_name := name t;
     score := score_or_0 (scores s !! id t);
     answered := count_or_0 (answeredCount s !! id t);
     correct := count_or_0 (correctCount s !! id t) |}.

(** The rows [renderStandings] writes into the table, in order; the rank
    shown for a row is its position plus one. *)
Definition renderStandings (s : State) : list Row :=
  sort_by (fun a b => score b - score a) (map (standingsRow s) (teams s)).

(** *** Question flow *)

Definition with_options (p : Page) (n : nat) (disabled : bool) : Page :=
  {| st := st p;
     ui := {| optionButtons := n;
              optionsDisabled := disabled;
              teamButtons := teamButtons (ui p);
              submitDisabled := submitDisabled (ui p);
              standingsBody := standingsBody (ui p) |} |}.

Definition with_submit (p : Page) (disabled : bool) : Page :=
  {| st := st p;
     ui := {| optionButtons := optionButtons (ui p);
              optionsDisabled := optionsDisabled (ui p);
              teamButtons := teamButtons (ui p);
              submitDisabled := disabled;
              standingsBody := standingsBody (ui p) |} |}.

Definition with_standings (p : Page) (rows : list Row) : Page :=
  {| st := st p;
     ui := {| optionButtons := optionButtons (ui p);
              optionsDisabled := optionsDisabled (ui p);
              teamButtons := teamButtons (ui p);
              submitDisabled := submitDisabled (ui p);
              standingsBody := rows |} |}.

Definition clearOptionsUI (p : Page) : Page :=
  with_options p 0 (optionsDisabled (ui p)).

(** [endQuiz] only writes texts and clears the option buttons. *)
Definition endQuiz (p : Page) : Page := clearOptionsUI p.

(** [renderQuestion]: reading [q.text] of a missing question throws;
    otherwise one fresh, enabled button per option is created. *)
Definition renderQuestion (p : Page) : outcome :=
  match Js.index (questions (st p)) (currentIndex (st p)) with
  | None => Throws p
  | Some q => Done (with_options p (length (options q)) false)
  end.

Definition goToNextQuestion (v : revision) (p : Page) : outcome :=
  let s := st p in
  if negb (quizStarted s) || (length (questions s) =? 0)%nat then Done p
  else
    let nextIndex := currentIndex s + 1 in
    if Z.of_nat (length (questions s)) <=? nextIndex then Done (endQuiz p)
    else
      let s' := {| questions := questions s;
                   currentIndex := nextIndex;
                   teams := teams s;
                   scores := scores s;
                   answeredCount := answeredCount s;
                   correctCount := correctCount s;
                   selectedOptionIndex := None;
                   selectedTeamId := None;
                   quizStarted := quizStarted s |} in
      let p' := {| st := s'; ui := ui p |} in
      renderQuestion
        match v with
        | Current => with_submit p' true
        | Earlier => p'
        end.

(** *** Scoring *)

(** [state.scores[teamId] += n] *)
Definition add_num (x : option num) (n : Z) : num :=
  match x with Some (Int z) => Int (z + n) | _ => NaN end.

(** The guard at the top of [maybeScore] and [confirmScore]:
    [state.selectedOptionIndex == null || !state.selectedTeamId]. *)
Definition nothing_to_score (s : State) : bool :=
  match selectedOptionIndex s, selectedTeamId s with
  | Some _, Some t => negb (Js.truthy_str t)
  | _, _ => true
  end.

(** The state after the tallies of [maybeScore] / [confirmScore] have been
    updated for team [teamId] answering question [q] with option [opt]. *)
Definition tally (s : State) (q : Question) (opt : Z) (teamId : string) : State :=
  let isCorrect := opt =? correctIndex q in
  let answered' :=
    <[teamId := count_or_0 (answeredCount s !! teamId) + 1]> (answeredCount s) in
  {| questions := questions s;
     currentIndex := currentIndex s;
     teams := teams s;
     scores :=
       if isCorrect
       then <[teamId := add_num (scores s !! teamId)
                          (Js.or_num (Some (points q)) DEFAULT_POINTS)]> (scores s)
       else scores s;
     answeredCount := answered';
     correctCount :=
       if isCorrect
       then <[teamId := count_or_0 (correctCount s !! teamId) + 1]> (correctCount s)
       else correctCount s;
     selectedOptionIndex := selectedOptionIndex s;
     selectedTeamId := selectedTeamId s;
     quizStarted := quizStarted s |}.

(** [maybeScore]: present in both revisions with the same body.  Reading
    [q.correctIndex] of a missing question or [team.id] of a team that is not
    found throws before anything is written. *)
Definition maybeScore (p : Page) : outcome :=
  let s := st p in
  if nothing_to_score s then Done p
  else
    match selectedOptionIndex s, selectedTeamId s,
          Js.index (questions s) (currentIndex s) with
    | Some opt, Some sel, Some q =>
        match List.find (fun t => String.eqb (id t) sel) (teams s) with
        | None => Throws p
        | Some team =>
            let s' := tally s q opt (id team) in
            let locked := with_options p (optionButtons (ui p)) true in
            Done (with_standings {| st := s'; ui := ui locked |} (renderStandings s'))
        end
    | _, _, _ => Throws p
    end.

(** [confirmScore] (current revision): the body of [maybeScore], and the
    submit button is disabled before the standings are drawn. *)
Definition confirmScore (p : Page) : outcome :=
  let s := st p in
  if nothing_to_score s then Done p
  else and_then (maybeScore p) (fun p' => Done (with_submit p' true)).

(** [checkSubmitButtonState] (current revision) *)
Definition checkSubmitButtonState (p : Page) : Page :=
  match selectedOptionIndex (st p), selectedTeamId (st p) with
  | Some _, Some t => with_submit p (negb (Js.truthy_str t))
  | _, _ => with_submit p true
  end.

Definition select_option (i : Z) (p : Page) : Page :=
  let s := st p in
  {| st := {| questions := questions s;
              currentIndex := currentIndex s;
              teams := teams s;
              scores := scores s;
              answeredCount := answeredCount s;
              correctCount := correctCount s;
              selectedOptionIndex := Some i;
              selectedTeamId := selectedTeamId s;
              quizStarted := quizStarted s |};
     ui := ui p |}.

Definition select_team (t : string) (p : Page) : Page :=
  let s := st p in
  {| st := {| questions := questions s;
              currentIndex := currentIndex s;
              teams := teams s;
              scores := scores s;
              answeredCount := answeredCount s;
              correctCount := correctCount s;
              selectedOptionIndex := selectedOptionIndex s;
              selectedTeamId := Some t;
              quizStarted := quizStarted s |};
     ui := ui p |}.

(** Click listener of option button [i] (installed by [renderOptions]). *)
Definition optionClick (v : revision) (i : nat) (p : Page) : outcome :=
  if negb (quizStarted (st p)) then Done p
  else
    let p' := select_option (Z.of_nat i) p in
    match v with
    | Current => Done (checkSubmitButtonState p')
    | Earlier => Done p'
    end.

(** Click listener of the button of team [t] (installed by
    [buildTeamButtons]): the current revision only re-evaluates the submit
    button, the earlier one scores at once. *)
Definition teamClick (v : revision) (t : string) (p : Page) : outcome :=
  let p' := select_team t p in
  match v with
  | Current => Done (checkSubmitButtonState p')
  | Earlier => maybeScore p'
  end.

(** *** Quiz control *)

(** [buildTeamButtons]: one button per team, replacing the old ones. *)
Definition buildTeamButtons (p : Page) : Page :=
  {| st := st p;
     ui := {| optionButtons := optionButtons (ui p);
              optionsDisabled := optionsDisabled (ui p);
              teamButtons := map id (teams (st p));
              submitDisabled := submitDisabled (ui p);
              standingsBody := standingsBody (ui p) |} |}.

(** The loop [state.teams.forEach(t => { m[t.id] = 0; })] on an empty [m]. *)
Definition zeroed {V} (zero : V) (ts : list Team) : gmap string V :=
  foldl (fun m t => <[id t := zero]> m) ∅ ts.

(** Click listener of the start button; [inputs] are the values of the
    team-name fields, top to bottom. *)
Definition startQuiz (v : revision) (inputs : list string) (p : Page) : outcome :=
  let s := st p in
  let names := List.filter Js.truthy_str (map Js.trim inputs) in
  if (length names =? 0)%nat then Done p
  else if (length (questions s) =? 0)%nat then Done p
  else
    let teams' :=
      imap (fun index name => {| id := "team-" +:+ pretty index; name := name |})
           names in
    let s' := {| questions := questions s;
                 currentIndex := -1;
                 teams := teams';
                 scores := zeroed (Int 0) teams';
                 answeredCount := zeroed 0 teams';
                 correctCount := zeroed 0 teams';
                 selectedOptionIndex := selectedOptionIndex s;
                 selectedTeamId := selectedTeamId s;
                 quizStarted := true |} in
    and_then (goToNextQuestion v {| st := s'; ui := ui p |}) (fun p1 =>
    let p2 := buildTeamButtons p1 in
    Done (with_standings p2 (renderStandings (st p2)))).

(** Click listener of the reset button; [confirmed] is the answer given to
    the [confirm] dialog. *)
Definition resetQuiz (confirmed : bool) (p : Page) : Page :=
  if negb confirmed then p
  else
    let s := st p in
    let s' := {| questions := questions s;
                 currentIndex := -1;
                 teams := teams s;
                 scores := scores s;
                 answeredCount := answeredCount s;
                 correctCount := correctCount s;
                 selectedOptionIndex := None;
                 selectedTeamId := None;
                 quizStarted := false |} in
    with_standings (clearOptionsUI {| st := s'; ui := ui p |}) [].

(** What a successful load does to the page: the valid questions are
    shuffled once and stored, and the position is rewound. *)
Definition loadQuestions (rnd : nat → draw) (records : list (gmap string string))
    (p : Page) : Page :=
  let qs := csvToQuestions records in
  if (length qs =? 0)%nat then p
  else
    let s := st p in
    clearOptionsUI
      {| st := {| questions := shuffled rnd qs;
                  currentIndex := -1;
                  teams := teams s;
                  scores := scores s;
                  answeredCount := answeredCount s;
                  correctCount := correctCount s;
                  selectedOptionIndex := selectedOptionIndex s;
                  selectedTeamId := selectedTeamId s;
                  quizStarted := quizStarted s |};
         ui := ui p |}.

(** The page as the script leaves it before any question is loaded;
    [submitDisabled0] is the initial flag of the submit button, which the
    markup fixes. *)
Definition initialPage (submitDisabled0 : bool) : Page :=
  {| st := {| questions := [];
              currentIndex := -1;
              teams := [];
              scores := ∅;
              answeredCount := ∅;
              correctCount := ∅;
              selectedOptionIndex := None;
              selectedTeamId := None;
              quizStarted := false |};
     ui := {| optionButtons := 0;
              optionsDisabled := false;
              teamButtons := [];
              submitDisabled := submitDisabled0;
              standingsBody := [] |} |}.

(** *** Events *)

Inductive Event :=
| ClickStart (inputs : list string)
| ClickReset (confirmed : bool)
| ClickNext
| ClickOption (i : nat)
| ClickTeam (teamId : string)
| ClickSubmit.

(** One user action.  A click reaches a listener only if the button exists
    and is not disabled; otherwise nothing runs.  An exception ends the
    listener and leaves the page as it was at that point. *)
Definition step (v : revision) (e : Event) (p : Page) : Page :=
  match e with
  | ClickStart inputs => settle (startQuiz v inputs p)
  | ClickReset confirmed => resetQuiz confirmed p
  | ClickNext => settle (goToNextQuestion v p)
  | ClickOption i =>
      if (i <? optionButtons (ui p))%nat && negb (optionsDisabled (ui p))
      then settle (optionClick v i p) else p
  | ClickTeam t =>
      if bool_decide (t ∈ teamButtons (ui p))
      then settle (teamClick v t p) else p
  | ClickSubmit =>
      match v with
      | Current => if submitDisabled (ui p) then p else settle (confirmScore p)
      | Earlier => p
      end
  end.

Definition run (v : revision) (es : list Event) (p : Page) : Page :=
  foldl (fun p e => step v e p) p es.

(** The events the session accepts while a quiz is in progress, apart from
    starting over and resetting. *)
Definition in_progress_event (e : Event) : bool :=
  match e with
  | ClickNext | ClickOption _ | ClickTeam _ | ClickSubmit => true
  | ClickStart _ | ClickReset _ => false
  end.

(** A quiz is in progress: it has been started and a question is shown. *)
Definition InProgress (s : State) : Prop :=
  quizStarted s = true ∧ 0 ≤ currentIndex s < Z.of_nat (length (questions s)).

(** The question list, the position, the started flag and the team list
    are the same in both states. *)
Definition same_position (s s' : State) : Prop :=
  questions s' = questions s
  ∧ currentIndex s' = currentIndex s
  ∧ quizStarted s' = quizStarted s
  ∧ teams s' = teams s.

(** The three tally maps are the same in both states. *)
Definition same_tallies (s s' : State) : Prop :=
  scores s' = scores s
  ∧ answeredCount s' = answeredCount s
  ∧ correctCount s' = correctCount s.

(** Every team of the roster has score 0 and both counters 0, and the
    tally maps have no other key. *)
Definition tallies_zeroed (s : State) : Prop :=
  ∀ k, scores s !! k = (if bool_decide (k ∈ map id (teams s))
                        then Some (Int 0) else None)
       ∧ answeredCount s !! k = (if bool_decide (k ∈ map id (teams s))
                                 then Some 0 else None)
       ∧ correctCount s !! k = (if bool_decide (k ∈ map id (teams s))
                                then Some 0 else None).

(** The three tallies of team [k]. *)
Definition tallies_of (s : State) (k : string) : option num * option Z * option Z :=
  (scores s !! k, answeredCount s !! k, correctCount s !! k).

(** ** The loader's rules as the specification words them *)

(** "the integer parse of the record's points column when that parse yields
    a positive integer, and the default 10 whenever the column is missing,
    non-numeric, or non-positive" *)
Definition points_spec (r : gmap string string) : Z :=
  match Js.parseInt (r !! "points") with
  | Some n => if 0 <? n then n else 10
  | None => 10
  end.

(** "parsed as an integer, replaced by 1 when missing or non-numeric,
    clamped into [1,4], then converted to 0-based" *)
Definition correctIndex_spec (r : gmap string string) : Z :=
  let parsed := default 1 (Js.parseInt (r !! "correctIndex")) in
  Z.max 1 (Z.min 4 parsed) - 1.

(** "each output row carries that team's name, score, answeredCount and
    correctCount": the row owed to team [t], read directly off the three
    maps of the state; a number that is not stored (or a stored [NaN])
    counts as 0. *)
Definition team_row (s : State) (t : Team) : Row :=
  {| row_id := id t;
     row_name := name t;
     score := match scores s !! id t with
              | Some (Int z) => z
              | Some NaN | None => 0
              end;
     answered := match answeredCount s !! id t with
                 | Some a => a
                 | None => 0
                 end;
     correct := match correctCount s !! id t with
                | Some c => c
                | None => 0
                end |}.

(** The integers a JavaScript number holds exactly
    ([Number.isSafeInteger]): up to [Number.MAX_SAFE_INTEGER] in absolute
    value.  Inside this range the integers of the model are the numbers of
    the engine. *)
Definition safe_integer (z : Z) : Prop := Z.abs z ≤ 2 ^ 53 - 1.

(** A column that holds a non-empty string. *)
Definition nonempty (x : option string) : bool :=
  match x with
  | Some s => negb (String.eqb s "")
  | None => false
  end.

(** "its question text is a non-empty string and all 4 of its options are
    non-empty strings" *)
Definition valid_record (r : gmap string string) : bool :=
  nonempty (r !! "question")
  && nonempty (r !! "option1") && nonempty (r !! "option2")
  && nonempty (r !! "option3") && nonempty (r !! "option4").

(** ** Concrete inputs used below *)

Definition record_of (question o1 o2 o3 o4 ci pts : string) : gmap string string :=
  <["question" := question]> (<["option1" := o1]> (<["option2" := o2]>
  (<["option3" := o3]> (<["option4" := o4]> (<["correctIndex" := ci]>
  (<["points" := pts]> ∅)))))).

(** A well-formed row whose points cell is a negative number. *)
Definition penalty_record : gmap string string :=
  record_of "Capital of France?" "Rome" "Paris" "Oslo" "Bern" "2" "-5".

Definition plain_record : gmap string string :=
  record_of "2 + 2?" "3" "4" "5" "6" "2" "".

Definition blank_option_record : gmap string string :=
  record_of "Largest planet?" "Mars" "" "Jupiter" "Venus" "3" "20".

(** Draws 1/2, 1/3 and 9/10, then 0 for ever. *)
Definition demo_rnd (k : nat) : draw :=
  match k with
  | 0%nat => {| numer := 1; denom := 2; draw_below_one := eq_refl |}
  | 1%nat => {| numer := 1; denom := 3; draw_below_one := eq_refl |}
  | 2%nat => {| numer := 9; denom := 10; draw_below_one := eq_refl |}
  | _ => {| numer := 0; denom := 1; draw_below_one := eq_refl |}
  end.

(** The draw 0. *)
Definition zero_draw : draw :=
  {| numer := 0; denom := 1; draw_below_one := eq_refl |}.

(** A store with one array of four strings at reference 0. *)
Definition demo_store : gmap nat (list string) :=
  {[ 0%nat := ["w"; "x"; "y"; "z"] ]}.

(** A loaded page with two questions, before the quiz is started. *)
Definition demo_questions : list Question :=
  [ {| text := "Q1"; options := ["a"; "b"; "c"; "d"]; correctIndex := 2; points := 10 |};
    {| text := "Q2"; options := ["a"; "b"; "c"; "d"]; correctIndex := 0; points := 5 |} ].

Definition demo_page : Page :=
  {| st := {| questions := demo_questions;
              currentIndex := -1;
              teams := [];
              scores := ∅;
              answeredCount := ∅;
              correctCount := ∅;
              selectedOptionIndex := None;
              selectedTeamId := None;
              quizStarted := false |};
     ui := ui (initialPage true) |}.

(** Two teams are entered, the quiz is started, and team "Red" answers the
    first question with its correct option. *)
Definition first_answer (v : revision) : list Event :=
  match v with
  | Current => [ClickStart ["Red"; "Blue"]; ClickOption 2; ClickTeam "team-0"; ClickSubmit]
  | Earlier => [ClickStart ["Red"; "Blue"]; ClickOption 2; ClickTeam "team-0"]
  end.

(** Without leaving the question, the team button is clicked once more (and,
    in the current revision, the submit button after it). *)
Definition answer_again (v : revision) : list Event :=
  match v with
  | Current => [ClickTeam "team-0"; ClickSubmit]
  | Earlier => [ClickTeam "team-0"]
  end.

(** Events other than a reset. *)
Definition not_reset (e : Event) : bool :=
  match e with ClickReset _ => false | _ => true end.

(** ** [parseCSV] *)

Definition LF : ascii := "010"%char.
Definition CR : ascii := "013"%char.

(** [c] occurs in [s]. *)
Fixpoint contains (c : ascii) (s : string) : bool :=
  match s with
  | EmptyString => false
  | String c' s' => Ascii.eqb c' c || contains c s'
  end.

(** Puts [c] in front of the first piece of a split. *)
Definition cons_head (c : ascii) (pieces : list string) : list string :=
  match pieces with
  | piece :: rest => String c piece :: rest
  | [] => [String c ""]
  end.

(** [text.split(/\r?\n/)]: the text is cut at every line feed, and a
    carriage return right before a line feed goes with it.  The result
    always has at least one piece. *)
Fixpoint split_lines (s : string) : list string :=
  match s with
  | EmptyString => [""]
  | String c s' =>
      if Ascii.eqb c LF then "" :: split_lines s'
      else
        match s' with
        | String c' s'' =>
            if Ascii.eqb c CR && Ascii.eqb c' LF then "" :: split_lines s''
            else cons_head c (split_lines s')
        | EmptyString => cons_head c (split_lines s')
        end
  end.

(** [s.split(sep)] for a one-character separator. *)
Fixpoint split_on (sep : ascii) (s : string) : list string :=
  match s with
  | EmptyString => [""]
  | String c s' =>
      if Ascii.eqb c sep then "" :: split_on sep s'
      else cons_head c (split_on sep s')
  end.

(** [line.split(",").map(c => c.trim())] *)
Definition cells (line : string) : list string :=
  map Js.trim (split_on "," line).

(** [obj[h] = v] for a string [v] on a plain object: every name is stored
    but [__proto__], whose setter ignores a value that is not an object. *)
Definition assign (h v : string) (obj : gmap string string) : gmap string string :=
  if String.eqb h "__proto__" then obj else <[h := v]> obj.

(** [headers.forEach((h, i) => { obj[h] = cols[i] ?? ""; })], from header
    number [i] on.  A header that occurs twice keeps the later cell. *)
Fixpoint fill_object (cols : list string) (i : nat) (headers : list string)
    (obj : gmap string string) : gmap string string :=
  match headers with
  | [] => obj
  | h :: hs => fill_object cols (S i) hs (assign h (default "" (cols !! i)) obj)
  end.

(** The non-blank lines of the text, trimmed: [lines] in [parseCSV]. *)
Definition csvLines (text : string) : list string :=
  List.filter Js.truthy_str (map Js.trim (split_lines text)).


Definition parseCSV (text : string) : list (gmap string string) :=
  match csvLines text with
  | [] => []
  | header :: rows =>
      let headers := cells header in
      map (fun line => fill_object (cells line) 0 headers ∅) rows
  end.

(** *** The two ways a bank is loaded *)

(** [loadQuestionsFromRepo] (current revision, run once when the page
    opens).  [response] is the body of questions.csv, or [None] when the
    request fails or is answered with an error status. *)
Definition loadQuestionsFromRepo (rnd : nat → draw) (response : option string)
    (p : Page) : Page :=
  match response with
  | None => p
  | Some text => loadQuestions rnd (parseCSV text) p
  end.

(** Click listener of the load button of the earlier revision; [value] is
    the content of the text area. *)
Definition loadCsvClick (rnd : nat → draw) (value : string) (p : Page) : Page :=
  let text := Js.trim value in
  if negb (Js.truthy_str text) then p
  else loadQuestions rnd (parseCSV text) p.

(** The page once the script has run: no teams, no tallies, and the
    questions [qs] the load has stored ([[]] if it found none). *)
Definition bootPage (qs : list Question) (submitDisabled0 : bool) : Page :=
  {| st := {| questions := qs;
              currentIndex := -1;
              teams := [];
              scores := ∅;
              answeredCount := ∅;
              correctCount := ∅;
              selectedOptionIndex := None;
              selectedTeamId := None;
              quizStarted := false |};
     ui := ui (initialPage submitDisabled0) |}.

(** *** Reading the question aloud *)

(** What [readCurrentQuestion] hands to [speakText]. *)
Inductive speech := Silent | Says (words : string) | Raises.

(** [labels[i]] inside a template string. *)
Definition option_label (i : nat) : string :=
  match i with
  | 0%nat => "A" | 1%nat => "B" | 2%nat => "C" | 3%nat => "D"
  | _ => "undefined"
  end.

(** [pieces.join(sep)] *)
Fixpoint join (sep : string) (pieces : list string) : string :=
  match pieces with
  | [] => ""
  | [x] => x
  | x :: rest => x +:+ sep +:+ join sep rest
  end.

Definition readCurrentQuestion (s : State) : speech :=
  if (currentIndex s <? 0) || (length (questions s) =? 0)%nat then Silent
  else
    match Js.index (questions s) (currentIndex s) with
    | None => Raises
    | Some q =>
        let base := "Question " +:+ pretty (currentIndex s + 1) +:+ ". " +:+ text q in
        let optionsText :=
          join " " (imap (fun i opt =>
                            "Option " +:+ option_label i +:+ ": " +:+ opt +:+ ".")
                         (options q)) in
        Says (base +:+ ". " +:+ optionsText)
    end.

(** *** The team editor *)

(** The rows of the team editor are kept as the list of their input values. *)
Definition initTeams : list string := ["Team A"; "Team B"; "Team C"].

Definition addTeamRow (name : string) (editor : list string) : list string :=
  editor ++ [name].

(** Click listener of the remove button of row [i]. *)
Definition removeTeamRow (i : nat) (editor : list string) : list string :=
  if (length editor <=? 1)%nat then editor else delete i editor.

Inductive EditorEvent :=
| ClickAddTeam
| ClickRemoveTeam (i : nat)
| TypeTeamName (i : nat) (value : string).

(** One action on the editor; a button or field that does not exist
    receives nothing. *)
Definition editor_step (e : EditorEvent) (editor : list string) : list string :=
  match e with
  | ClickAddTeam => addTeamRow "" editor
  | ClickRemoveTeam i =>
      if (i <? length editor)%nat then removeTeamRow i editor else editor
  | TypeTeamName i value => <[i := value]> editor
  end.

(** ** Invariants of the session *)

(** The tallies of a page are sound: every team of the roster has an
    integer score and two counters with [0 <= correct <= answered], and no
    other key is present. *)
Definition tallies_sound (s : State) : Prop :=
  ∀ k,
    (k ∈ map id (teams s) →
       ∃ z a c, scores s !! k = Some (Int z)
                ∧ answeredCount s !! k = Some a
                ∧ correctCount s !! k = Some c
                ∧ 0 ≤ c ≤ a)
    ∧ (k ∉ map id (teams s) →
       scores s !! k = None ∧ answeredCount s !! k = None
       ∧ correctCount s !! k = None).

(** What the click listeners keep true from the moment the script has run. *)
Definition page_ok (p : Page) : Prop :=
  let s := st p in
  -1 ≤ currentIndex s < Z.of_nat (length (questions s))
  ∧ teamButtons (ui p) = map id (teams s)
  ∧ (∀ t, selectedTeamId s = Some t → t ∈ map id (teams s))
  ∧ (is_Some (selectedOptionIndex s) → 0 ≤ currentIndex s)
  ∧ ((0 < optionButtons (ui p))%nat → 0 ≤ currentIndex s)
  ∧ tallies_sound s.

(** A question as the session needs it: a text, four options, none of them
    empty, the index of one of them, and points other than 0. *)
Definition well_formed_question (q : Question) : Prop :=
  text q ≠ ""
  ∧ length (options q) = 4%nat
  ∧ Forall (fun o => o ≠ "") (options q)
  ∧ 0 ≤ correctIndex q ≤ 3
  ∧ points q ≠ 0.

(** While a quiz is started, the table on the page is the standings of the
    current state. *)
Definition table_current (p : Page) : Prop :=
  quizStarted (st p) = true → standingsBody (ui p) = renderStandings (st p).

(** No score is a negative number. *)
Definition scores_nonneg (s : State) : Prop :=
  ∀ k z, scores s !! k = Some (Int z) → 0 ≤ z.

(** No quiz is running and no option is selected. *)
Definition idle (s : State) : Prop :=
  quizStarted s = false ∧ selectedOptionIndex s = None.

(** Events other than a click on Start. *)
Definition not_start (e : Event) : bool :=
  match e with ClickStart _ => false | _ => true end.

(** Events other than a click on Start or on an option. *)
Definition no_new_option (e : Event) : bool :=
  match e with ClickStart _ | ClickOption _ => false | _ => true end.

(** A two-line bank: the header and one valid row. *)
Definition demo_csv : string :=
  "question,option1,option2,option3,option4,correctIndex,points" +:+ String CR (String LF
  " Capital of France? , Rome,Paris ,Oslo,Bern,2").

(** ** Loader: facts about [csvToQuestions] *)

Lemma csvToQuestions_elem (records : list (gmap string string)) (q : Question) :
  q ∈ csvToQuestions records ↔
  ∃ r, r ∈ records ∧ q = toQuestion r ∧ keepQuestion q = true.
Proof.
  unfold csvToQuestions. rewrite list_elem_of_In, filter_In, in_map_iff.
  split.
  - intros [(r & <- & Hr) Hk]. exists r. by rewrite list_elem_of_In.
  - intros (r & Hr & -> & Hk). split; [|done].
    exists r. by rewrite <- list_elem_of_In.
Qed.

Lemma truthy_or_empty (x : option string) :
  Js.truthy_str (Js.or_empty x) = nonempty x.
Proof. by destruct x. Qed.

Lemma keepQuestion_toQuestion (r : gmap string string) :
  keepQuestion (toQuestion r) = valid_record r.
Proof.
  unfold keepQuestion, valid_record, toQuestion.
  destruct (r !! "question") as [[|??]|], (r !! "option1") as [[|??]|],
    (r !! "option2") as [[|??]|], (r !! "option3") as [[|??]|],
    (r !! "option4") as [[|??]|]; reflexivity.
Qed.

Lemma csvToQuestions_filter_map (records : list (gmap string string)) :
  csvToQuestions records = map toQuestion (List.filter valid_record records).
Proof.
  unfold csvToQuestions.
  induction records as [|r records IH]; [done|].
  cbn [map List.filter]. rewrite keepQuestion_toQuestion.
  destruct (valid_record r); cbn [map]; by rewrite IH.
Qed.

Lemma truthy_str_ne (s : string) : Js.truthy_str s = true ↔ s ≠ "".
Proof.
  unfold Js.truthy_str. destruct (String.eqb_spec s ""); split; naive_solver.
Qed.

(** C7: the loader keeps a record exactly when its question text and its four
    options are all non-empty strings: the produced sequence is the image,
    in order, of the records that pass that test, and no produced question
    has an empty text or an empty option. *)
Theorem csvToQuestions_validation_filter (records : list (gmap string string)) :
  csvToQuestions records = map toQuestion (List.filter valid_record records)
  ∧ Forall (fun q => text q ≠ ""
                     ∧ length (options q) = 4%nat
                     ∧ Forall (fun o => o ≠ "") (options q))
           (csvToQuestions records).
Proof.
  split; [apply csvToQuestions_filter_map|].
  apply Forall_forall. intros q (r & _ & -> & Hk)%csvToQuestions_elem.
  unfold keepQuestion in Hk.
  apply andb_prop in Hk as [[Ht Hl]%andb_prop Ho].
  split; [by apply truthy_str_ne|].
  split; [by apply Nat.eqb_eq|].
  apply Forall_forall. intros o Ho'%list_elem_of_In.
  rewrite forallb_forall in Ho. by apply truthy_str_ne, Ho.
Qed.

(** C8: the produced [correctIndex] is the column parsed as an integer,
    1 when that fails, clamped into 1..4 and made 0-based; it always lies in
    0..3. *)
Theorem correctIndex_coercion (records : list (gmap string string)) :
  (∀ r, correctIndex (toQuestion r) = correctIndex_spec r
        ∧ 0 ≤ correctIndex (toQuestion r) ≤ 3)
  ∧ Forall (fun q => 0 ≤ correctIndex q ≤ 3
                     ∧ ∃ r, r ∈ records ∧ q = toQuestion r
                            ∧ correctIndex q = correctIndex_spec r)
           (csvToQuestions records).
Proof.
  assert (Hone : ∀ r, correctIndex (toQuestion r) = correctIndex_spec r
                      ∧ 0 ≤ correctIndex (toQuestion r) ≤ 3).
  { intros r. unfold toQuestion, correctIndex_spec, Js.or_num; cbn [correctIndex].
    destruct (Js.parseInt (r !! "correctIndex")) as [n|]; simpl.
    - destruct (Z.eqb_spec n 0); lia.
    - lia. }
  split; [exact Hone|].
  apply Forall_forall. intros q (r & Hr & -> & _)%csvToQuestions_elem.
  destruct (Hone r) as [Heq Hrange]. split; [exact Hrange|].
  exists r. by repeat split.
Qed.

(** C3, as the code has it: [points] follows the specification's rule
    (the parse when positive, 10 when the column is missing, non-numeric or
    zero) except that a negative parse is kept as it is; every produced
    question has a non-zero [points]. *)
Theorem points_coercion (records : list (gmap string string)) :
  (∀ r, points (toQuestion r) =
          match Js.parseInt (r !! "points") with
          | Some n => if n <? 0 then n else points_spec r
          | None => points_spec r
          end)
  ∧ (∀ r, r !! "points" = None ∨ r !! "points" = Some "" →
          points (toQuestion r) = 10)
  ∧ Forall (fun q => points q ≠ 0 ∧ ∃ r, r ∈ records ∧ q = toQuestion r)
           (csvToQuestions records).
Proof.
  split; [|split].
  - intros r. unfold toQuestion, points_spec, Js.or_num, DEFAULT_POINTS;
      cbn [points].
    destruct (Js.parseInt (r !! "points")) as [n|]; [|done].
    destruct (Z.eqb_spec n 0), (Z.ltb_spec n 0), (Z.ltb_spec 0 n); lia.
  - intros r [H|H]; unfold toQuestion; cbn [points]; by rewrite H.
  - apply Forall_forall. intros q (r & Hr & -> & _)%csvToQuestions_elem.
    split; [|by exists r].
    unfold toQuestion, Js.or_num, DEFAULT_POINTS; cbn [points].
    destruct (Js.parseInt (r !! "points")) as [n|]; [|done].
    destruct (Z.eqb_spec n 0); lia.
Qed.

(** C3, as stated, fails on a negative points cell: the row is kept, its
    [points] is the negative parse, not the default, and it is not positive. *)
Lemma points_negative_kept :
  ∃ q, csvToQuestions [penalty_record] = [q]
       ∧ points_spec penalty_record = 10
       ∧ points q = -5
       ∧ points q ≠ points_spec penalty_record
       ∧ ¬ 0 < points q.
Proof. eexists. vm_compute. repeat split; congruence. Qed.

(** ** [shuffleArray] *)

Lemma floor_scaled_le (u : draw) (i : nat) : (floor_scaled u (i + 1) ≤ i)%nat.
Proof.
  unfold floor_scaled. destruct u as [n d Hlt]; cbn [numer denom].
  apply Nat.ltb_lt in Hlt.
  assert (Hq : ((n * (i + 1)) / d < i + 1)%nat).
  { apply Nat.Div0.div_lt_upper_bound. nia. }
  revert Hq. generalize ((n * (i + 1)) / d)%nat. lia.
Qed.

(** Conversely every index from 0 to [i] is the floor of some draw, so
    quantifying over all draws covers every choice the loop can make. *)
Lemma floor_scaled_any (i j : nat) :
  (j ≤ i)%nat → ∃ u : draw, floor_scaled u (i + 1) = j.
Proof.
  intros Hj.
  assert (Hlt : (j <? i + 1)%nat = true) by (apply Nat.ltb_lt; lia).
  exists {| numer := j; denom := (i + 1)%nat; draw_below_one := Hlt |}.
  unfold floor_scaled; cbn [numer denom]. apply Nat.div_mul. lia.
Qed.

Section ShuffleFacts.
Context {A : Type}.
Implicit Types l : list A.

Lemma insert_Permutation_delete l i x y :
  l !! i = Some y → <[i := x]> l ≡ₚ x :: delete i l.
Proof.
  revert i. induction l as [|z l IH]; intros [|i] Hi; simplify_eq/=; [done|].
  rewrite (IH i Hi). apply Permutation_swap.
Qed.

Lemma swap_values_lt l i j x y :
  (i < j)%nat → l !! i = Some x → l !! j = Some y →
  <[j := x]> (<[i := y]> l) ≡ₚ l.
Proof.
  revert i j. induction l as [|z l IH]; intros [|i] [|j] Hij Hi Hj;
    simplify_eq/=; try lia.
  - rewrite (insert_Permutation_delete l j x y Hj).
    rewrite (delete_Permutation l j y Hj) at 2. apply Permutation_swap.
  - f_equiv. apply IH; [lia|done..].
Qed.

Lemma swap_Some (a : list A) i j :
  (i < length a)%nat → (j < length a)%nat →
  ∃ a', swap a i j = Some a' ∧ a' ≡ₚ a.
Proof.
  intros [x Hx]%lookup_lt_is_Some_2 [y Hy]%lookup_lt_is_Some_2.
  unfold swap. rewrite Hx, Hy. eexists; split; [done|].
  destruct (Nat.lt_total i j) as [Hij|[->|Hij]].
  - by apply swap_values_lt.
  - simplify_eq. by rewrite !(list_insert_id a j x).
  - rewrite list_insert_insert_ne by lia. by apply swap_values_lt.
Qed.

(** Every index the loop uses is inside the array, so the loop runs to
    its end, and what it leaves is a rearrangement of what it got. *)
Lemma fisher_yates_Some rnd k i (a : list A) :
  (i ≤ length a - 1)%nat →
  ∃ a', fisher_yates rnd k i a = Some a' ∧ a' ≡ₚ a.
Proof.
  revert k a. induction i as [|i IH]; intros k a Hi; cbn [fisher_yates].
  - by exists a.
  - pose proof (floor_scaled_le (rnd k) (S i)) as Hj.
    destruct (swap_Some a (S i) (floor_scaled (rnd k) (S i + 1)))
      as (a1 & -> & Hperm); [lia..|].
    destruct (IH (S k) a1) as (a' & -> & Hperm').
    { rewrite (Permutation_length Hperm). lia. }
    exists a'. split; [done|]. by rewrite Hperm'.
Qed.

(** The in-place loop writes to the one reference it is given, and leaves
    there what the loop on the contents computes. *)
Lemma shuffle_loop_Some rnd k i (h : gmap nat (list A)) r l :
  h !! r = Some l → (i ≤ length l - 1)%nat →
  ∃ l', fisher_yates rnd k i l = Some l'
        ∧ shuffle_loop rnd k i h r = Some (<[r := l']> h).
Proof.
  revert k h l. induction i as [|i IH]; intros k h l Hl Hi;
    cbn [fisher_yates shuffle_loop].
  - exists l. by rewrite insert_id.
  - rewrite Hl.
    pose proof (floor_scaled_le (rnd k) (S i)) as Hj.
    destruct (swap_Some l (S i) (floor_scaled (rnd k) (S i + 1)))
      as (l1 & -> & Hperm); [lia..|].
    destruct (IH (S k) (<[r := l1]> h) l1) as (l' & -> & ->).
    { apply lookup_insert_eq. }
    { rewrite (Permutation_length Hperm). lia. }
    exists l'. by rewrite insert_insert_eq.
Qed.

Lemma shuffleArray_Some rnd (h : gmap nat (list A)) arr l :
  h !! arr = Some l →
  ∃ l', fisher_yates rnd 0 (length l - 1) l = Some l'
        ∧ l' ≡ₚ l
        ∧ shuffleArray rnd h arr = Some (fresh (dom h), <[fresh (dom h) := l']> h).
Proof.
  intros Hl. unfold shuffleArray. rewrite Hl.
  destruct (shuffle_loop_Some rnd 0 (length l - 1)
              (<[fresh (dom h) := l]> h) (fresh (dom h)) l)
    as (l' & Hfy & ->); [apply lookup_insert_eq|done|].
  destruct (fisher_yates_Some rnd 0 (length l - 1) l) as (l'' & Hfy' & Hperm);
    [done|].
  exists l'. rewrite insert_insert_eq. split; [done|]. split; [|done].
  congruence.
Qed.

(** C5: for every array in the store and every sequence of random draws,
    [shuffleArray] returns an array holding a permutation of the
    argument's elements: the same elements with the same multiplicities,
    hence the same length. *)
Theorem shuffleArray_permutation rnd (h : gmap nat (list A)) arr l :
  h !! arr = Some l →
  ∃ a h' l', shuffleArray rnd h arr = Some (a, h')
             ∧ h' !! a = Some l'
             ∧ l' ≡ₚ l
             ∧ length l' = length l.
Proof.
  intros Hl. destruct (shuffleArray_Some rnd h arr l Hl) as (l' & _ & Hperm & ->).
  eexists _, _, l'. split; [done|]. split; [apply lookup_insert_eq|].
  split; [done|]. by apply Permutation_length.
Qed.

(** C10: [shuffleArray] works on a copy.  The reference it returns is new,
    and after the call the argument, like every other array that was in
    the store, holds the same elements in the same order as before. *)
Theorem shuffleArray_leaves_argument rnd (h : gmap nat (list A)) arr l :
  h !! arr = Some l →
  ∃ a h', shuffleArray rnd h arr = Some (a, h')
          ∧ h !! a = None
          ∧ a ≠ arr
          ∧ h' !! arr = Some l
          ∧ ∀ b, b ≠ a → h' !! b = h !! b.
Proof.
  intros Hl. destruct (shuffleArray_Some rnd h arr l Hl) as (l' & _ & _ & ->).
  assert (Hfresh : h !! fresh (dom h) = None).
  { apply not_elem_of_dom, is_fresh. }
  assert (Hne : fresh (dom h) ≠ arr) by congruence.
  eexists _, _. split; [done|]. split; [done|]. split; [done|].
  split; [by rewrite lookup_insert_ne|].
  intros b Hb. by rewrite lookup_insert_ne.
Qed.
End ShuffleFacts.

(** The value-level shuffle used by the loader is the contents of the
    array [shuffleArray] returns. *)
Lemma shuffled_Permutation {A} (rnd : nat → draw) (l : list A) :
  shuffled rnd l ≡ₚ l.
Proof.
  unfold shuffled.
  destruct (fisher_yates_Some rnd 0 (length l - 1) l) as (l' & -> & Hperm); done.
Qed.

Lemma shuffleArray_shuffled {A} (rnd : nat → draw) (h : gmap nat (list A))
    (arr : nat) (l : list A) :
  h !! arr = Some l →
  shuffleArray rnd h arr
  = Some (fresh (dom h), <[fresh (dom h) := shuffled rnd l]> h).
Proof.
  intros Hl. destruct (shuffleArray_Some rnd h arr l Hl) as (l' & Hfy & _ & ->).
  unfold shuffled. by rewrite Hfy.
Qed.

(** A load that finds valid questions stores a permutation of them and
    rewinds the position; a load that finds none leaves the page alone. *)
Lemma loadQuestions_permutation (rnd : nat → draw)
    (records : list (gmap string string)) (p : Page) :
  (csvToQuestions records = [] ∧ loadQuestions rnd records p = p)
  ∨ (questions (st (loadQuestions rnd records p)) ≡ₚ csvToQuestions records
     ∧ currentIndex (st (loadQuestions rnd records p)) = -1).
Proof.
  unfold loadQuestions.
  destruct (csvToQuestions records) as [|q qs] eqn:E; [by left|right].
  cbn [length Nat.eqb clearOptionsUI with_options st questions currentIndex].
  split; [apply shuffled_Permutation|done].
Qed.

Lemma shuffleArray_permutation_witness :
  demo_store !! 0%nat = Some ["w"; "x"; "y"; "z"]
  ∧ ∃ a h' l', shuffleArray demo_rnd demo_store 0 = Some (a, h')
               ∧ h' !! a = Some l'
               ∧ l' ≡ₚ ["w"; "x"; "y"; "z"]
               ∧ length l' = 4%nat.
Proof.
  split; [reflexivity|].
  apply (shuffleArray_permutation demo_rnd demo_store 0). reflexivity.
Defined.

Lemma shuffleArray_leaves_argument_witness :
  demo_store !! 0%nat = Some ["w"; "x"; "y"; "z"]
  ∧ ∃ a h', shuffleArray demo_rnd demo_store 0 = Some (a, h')
            ∧ demo_store !! a = None
            ∧ a ≠ 0%nat
            ∧ h' !! 0%nat = Some ["w"; "x"; "y"; "z"]
            ∧ ∀ b, b ≠ a → h' !! b = demo_store !! b.
Proof.
  split; [reflexivity|].
  apply (shuffleArray_leaves_argument demo_rnd demo_store 0). reflexivity.
Defined.

(** The demo draws turn w, x, y, z into w, z, x, y. *)
Example shuffled_demo : shuffled demo_rnd ["w"; "x"; "y"; "z"] = ["w"; "z"; "x"; "y"].
Proof. reflexivity. Qed.

(** ** Standings: the stable sort *)

Section SortFacts.
Context {A : Type} (key : A → Z).
Implicit Types l : list A.

(** The comparator of [renderStandings], for any numeric key. *)
Local Abbreviation cmp := (fun a b : A => key b - key a).

(** [insert_by] puts [x] behind the leading elements whose key is strictly
    larger, and in front of everything else. *)
Lemma insert_by_split x l :
  ∃ l1 l2, l = l1 ++ l2
           ∧ insert_by cmp x l = l1 ++ x :: l2
           ∧ Forall (fun w => key x < key w) l1.
Proof.
  induction l as [|y l (l1 & l2 & -> & Hins & Hl1)]; cbn [insert_by].
  - by exists [], [].
  - cbv beta. destruct (Z.ltb_spec 0 (key y - key x)).
    + exists (y :: l1), l2. rewrite Hins. split; [done|]. split; [done|].
      constructor; [lia|done].
    + by exists [], (y :: l1 ++ l2).
Qed.

Lemma insert_by_Permutation x l : insert_by cmp x l ≡ₚ x :: l.
Proof.
  destruct (insert_by_split x l) as (l1 & l2 & -> & -> & _).
  by rewrite Permutation_middle.
Qed.

Lemma sort_by_Permutation l : sort_by cmp l ≡ₚ l.
Proof.
  induction l as [|x l IH]; [done|]. unfold sort_by in *; cbn [foldr].
  by rewrite insert_by_Permutation, IH.
Qed.

Lemma insert_by_sorted x l :
  StronglySorted (fun a b => key b ≤ key a) l →
  StronglySorted (fun a b => key b ≤ key a) (insert_by cmp x l).
Proof.
  induction 1 as [|y l Hl IH Hy]; cbn [insert_by].
  - repeat constructor.
  - cbv beta. destruct (Z.ltb_spec 0 (key y - key x)).
    + constructor; [done|].
      rewrite insert_by_Permutation. constructor; [lia|done].
    + constructor; [by constructor|].
      constructor; [lia|]. eapply Forall_impl; [exact Hy|].
      intros w Hw; cbn in Hw |- *. lia.
Qed.

Lemma sort_by_sorted l :
  StronglySorted (fun a b => key b ≤ key a) (sort_by cmp l).
Proof.
  induction l as [|x l IH]; [constructor|].
  unfold sort_by in *; cbn [foldr]. by apply insert_by_sorted.
Qed.

Lemma filter_key_larger v x l :
  key x = v → Forall (fun w => key x < key w) l →
  filter (fun w => key w = v) l = [].
Proof.
  intros Hv. induction 1 as [|w l Hw _ IH]; [done|].
  rewrite filter_cons_False by lia. exact IH.
Qed.

(** Stability: among the elements of any one key, the sort keeps the
    order of the input. *)
Lemma sort_by_stable v l :
  filter (fun w => key w = v) (sort_by cmp l) = filter (fun w => key w = v) l.
Proof.
  induction l as [|x l IH]; [done|].
  unfold sort_by in *; cbn [foldr].
  destruct (insert_by_split x (foldr (insert_by cmp) [] l))
    as (l1 & l2 & Hl & -> & Hl1).
  rewrite Hl, filter_app in IH. rewrite filter_app.
  destruct (decide (key x = v)) as [Hv|Hv].
  - rewrite !filter_cons_True by done.
    rewrite (filter_key_larger v x l1 Hv Hl1) in *. cbn [app] in *.
    by rewrite IH.
  - rewrite !filter_cons_False by done. exact IH.
Qed.

Lemma filter_sublist (P : A → Prop) `{!∀ x, Decision (P x)} l k :
  l `sublist_of` k → filter P l `sublist_of` filter P k.
Proof.
  induction 1 as [|x l k _ IH|x l k _ IH]; [done|..]; rewrite ?filter_cons;
    repeat case_decide; by try constructor.
Qed.

(** [[x; y]] is a subsequence of [l] exactly when [x] stands at some
    position of [l] and [y] at a later one. *)
Lemma pair_sublist_lookup x y l :
  [x; y] `sublist_of` l ↔
  ∃ i j, (i < j)%nat ∧ l !! i = Some x ∧ l !! j = Some y.
Proof.
  split.
  - intros (k1 & k2 & -> & Hy)%sublist_cons_l.
    apply singleton_sublist_l, list_elem_of_lookup in Hy as [n Hn].
    exists (length k1), (length k1 + S n)%nat. split; [lia|].
    split.
    + by rewrite list_lookup_middle.
    + rewrite lookup_app_r by lia.
      by replace (length k1 + S n - length k1)%nat with (S n) by lia.
  - intros (i & j & Hij & Hi & Hj).
    rewrite <- (take_drop_middle l i x Hi).
    apply sublist_inserts_l, sublist_skip, singleton_sublist_l.
    apply list_elem_of_lookup. exists (j - S i)%nat.
    rewrite lookup_drop. by replace (S i + (j - S i))%nat with j by lia.
Qed.

Lemma sort_by_keeps_order x y l :
  key x = key y → [x; y] `sublist_of` l → [x; y] `sublist_of` sort_by cmp l.
Proof.
  intros Hxy Hsub.
  apply (filter_sublist (fun w => key w = key x)) in Hsub.
  rewrite !filter_cons_True, filter_nil in Hsub by done.
  rewrite <- sort_by_stable in Hsub.
  etrans; [exact Hsub|]. apply sublist_filter.
Qed.
End SortFacts.

Lemma standingsRow_in (s : State) (row : Row) :
  row ∈ renderStandings s →
  ∃ t, t ∈ teams s ∧ row = standingsRow s t.
Proof.
  unfold renderStandings. rewrite (sort_by_Permutation score).
  intros (t & -> & Ht)%list_elem_of_fmap. by exists t.
Qed.

Lemma standingsRow_team_row (s : State) (t : Team) :
  standingsRow s t = team_row s t.
Proof.
  unfold standingsRow, team_row, score_or_0, count_or_0.
  by destruct (scores s !! id t) as [[]|], (answeredCount s !! id t),
    (correctCount s !! id t).
Qed.

(** C9: the standings list the teams by score, highest first; two teams with
    the same score keep the order in which they were entered; and every row
    is the row of one team, carrying its name, the score stored for it and
    its two stored counters (0 where nothing is stored). *)
Theorem renderStandings_ranked (s : State) :
  renderStandings s ≡ₚ map (team_row s) (teams s)
  ∧ StronglySorted (fun a b => score b ≤ score a) (renderStandings s)
  ∧ (∀ i j ti tj,
        (i < j)%nat → teams s !! i = Some ti → teams s !! j = Some tj →
        score (team_row s ti) = score (team_row s tj) →
        ∃ i' j', (i' < j')%nat
                 ∧ renderStandings s !! i' = Some (team_row s ti)
                 ∧ renderStandings s !! j' = Some (team_row s tj))
  ∧ Forall (fun row =>
              ∃ t, t ∈ teams s
                   ∧ row = team_row s t
                   ∧ row_id row = id t
                   ∧ row_name row = name t
                   ∧ (∀ z, scores s !! id t = Some (Int z) → score row = z)
                   ∧ (scores s !! id t = None ∨ scores s !! id t = Some NaN →
                      score row = 0)
                   ∧ (∀ a, answeredCount s !! id t = Some a → answered row = a)
                   ∧ (answeredCount s !! id t = None → answered row = 0)
                   ∧ (∀ c, correctCount s !! id t = Some c → correct row = c)
                   ∧ (correctCount s !! id t = None → correct row = 0))
           (renderStandings s).
Proof.
  assert (Hrows : map (standingsRow s) (teams s) = map (team_row s) (teams s)).
  { apply map_ext. apply standingsRow_team_row. }
  split; [rewrite <- Hrows; apply (sort_by_Permutation score)|].
  split; [apply (sort_by_sorted score)|].
  split.
  - intros i j ti tj Hij Hi Hj Heq.
    apply (pair_sublist_lookup (team_row s ti) (team_row s tj)).
    unfold renderStandings. rewrite Hrows.
    apply (sort_by_keeps_order score); [done|].
    apply pair_sublist_lookup. exists i, j.
    by rewrite !list_lookup_fmap, Hi, Hj.
  - apply Forall_forall. intros row (t & Ht & ->)%standingsRow_in.
    exists t. rewrite standingsRow_team_row.
    unfold team_row; cbn [row_id row_name score answered correct].
    split_and!; try done.
    + by intros z ->.
    + by intros [->| ->].
    + by intros a ->.
    + by intros ->.
    + by intros c ->.
    + by intros ->.
Qed.

(** ** Session: what each handler leaves alone *)

Lemma same_position_refl (s : State) : same_position s s.
Proof. by repeat split. Qed.

Lemma same_tallies_refl (s : State) : same_tallies s s.
Proof. by repeat split. Qed.

Lemma maybeScore_position (p : Page) :
  same_position (st p) (st (settle (maybeScore p))).
Proof.
  unfold maybeScore.
  destruct (nothing_to_score (st p)); [apply same_position_refl|].
  destruct (selectedOptionIndex (st p)), (selectedTeamId (st p)),
    (Js.index (questions (st p)) (currentIndex (st p)));
    try apply same_position_refl.
  destruct (List.find _ _); by repeat split.
Qed.

Lemma confirmScore_position (p : Page) :
  same_position (st p) (st (settle (confirmScore p))).
Proof.
  unfold confirmScore.
  destruct (nothing_to_score (st p)); [apply same_position_refl|].
  pose proof (maybeScore_position p) as H.
  by destruct (maybeScore p).
Qed.

Lemma checkSubmitButtonState_st (p : Page) : st (checkSubmitButtonState p) = st p.
Proof.
  unfold checkSubmitButtonState.
  by destruct (selectedOptionIndex (st p)), (selectedTeamId (st p)).
Qed.

Lemma optionClick_position (v : revision) (i : nat) (p : Page) :
  same_position (st p) (st (settle (optionClick v i p)))
  ∧ same_tallies (st p) (st (settle (optionClick v i p))).
Proof.
  unfold optionClick. destruct (negb (quizStarted (st p))).
  - split; [apply same_position_refl|apply same_tallies_refl].
  - destruct v; cbn [settle]; rewrite ?checkSubmitButtonState_st;
      by repeat split.
Qed.

Lemma teamClick_position (v : revision) (t : string) (p : Page) :
  same_position (st p) (st (settle (teamClick v t p))).
Proof.
  unfold teamClick. destruct v; cbn [settle].
  - rewrite checkSubmitButtonState_st. by repeat split.
  - destruct (maybeScore_position (select_team t p)) as (?&?&?&?).
    by repeat split.
Qed.

Lemma renderQuestion_st (p : Page) : st (settle (renderQuestion p)) = st p.
Proof. unfold renderQuestion. by destruct (Js.index _ _). Qed.

(** [goToNextQuestion], on the state: one step forward when there is a next
    question, nothing otherwise; the tallies are not touched. *)
Lemma goToNextQuestion_state (v : revision) (p : Page) :
  let s := st p in
  let s' := st (settle (goToNextQuestion v p)) in
  questions s' = questions s
  ∧ quizStarted s' = quizStarted s
  ∧ teams s' = teams s
  ∧ same_tallies s s'
  ∧ currentIndex s' =
      (if quizStarted s
          && negb (length (questions s) =? 0)%nat
          && (currentIndex s + 1 <? Z.of_nat (length (questions s)))
       then currentIndex s + 1 else currentIndex s).
Proof.
  cbn zeta. unfold goToNextQuestion.
  destruct (quizStarted (st p)) eqn:Hq; cbn [negb orb andb];
    [|by repeat split].
  destruct (Nat.eqb_spec (length (questions (st p))) 0) as [H0|H0];
    cbn [negb andb]; [by repeat split|].
  destruct (Z.leb_spec (Z.of_nat (length (questions (st p))))
              (currentIndex (st p) + 1)),
           (Z.ltb_spec (currentIndex (st p) + 1)
              (Z.of_nat (length (questions (st p))))); try lia.
  - by repeat split.
  - rewrite renderQuestion_st. destruct v; by repeat split.
Qed.

(** One in-progress event keeps a quiz in progress, never moves the
    position back, and moves it only if it is a click on Next. *)
Lemma step_in_progress (v : revision) (e : Event) (p : Page) :
  InProgress (st p) → in_progress_event e = true →
  InProgress (st (step v e p))
  ∧ questions (st (step v e p)) = questions (st p)
  ∧ currentIndex (st p) ≤ currentIndex (st (step v e p))
  ∧ (e ≠ ClickNext → currentIndex (st (step v e p)) = currentIndex (st p)).
Proof.
  intros [Hq Hi] He.
  assert (Hsame : ∀ s', same_position (st p) s' →
            InProgress s' ∧ questions s' = questions (st p)
            ∧ currentIndex (st p) ≤ currentIndex s'
            ∧ (e ≠ ClickNext → currentIndex s' = currentIndex (st p))).
  { intros s' (Hqs & Hci & Hst & _). unfold InProgress.
    rewrite Hqs, Hci, Hst. repeat split; (done || lia). }
  destruct e as [| | |i|t|]; try discriminate; cbn [step].
  - destruct (goToNextQuestion_state v p) as (Hqs & Hst & _ & _ & Hci).
    rewrite Hq in Hci.
    destruct (Nat.eqb_spec (length (questions (st p))) 0) as [H0|_]; [lia|].
    cbn [andb negb] in Hci. unfold InProgress.
    rewrite Hqs, Hst, Hci.
    destruct (Z.ltb_spec (currentIndex (st p) + 1)
                (Z.of_nat (length (questions (st p))))); repeat split;
      (done || lia).
  - destruct (_ && _); [|apply Hsame, same_position_refl].
    apply Hsame, optionClick_position.
  - destruct (bool_decide _); [|apply Hsame, same_position_refl].
    apply Hsame, teamClick_position.
  - destruct v; [|apply Hsame, same_position_refl].
    destruct (submitDisabled (ui p)); [apply Hsame, same_position_refl|].
    apply Hsame, confirmScore_position.
Qed.

Lemma run_cons (v : revision) (e : Event) (es : list Event) (p : Page) :
  run v (e :: es) p = run v es (step v e p).
Proof. reflexivity. Qed.







(** ** Reset *)

Lemma zeroed_lookup {V} (zero : V) (ts : list Team) (k : string) :
  zeroed zero ts !! k = if bool_decide (k ∈ map id ts) then Some zero else None.
Proof.
  unfold zeroed.
  assert (H : ∀ m : gmap string V,
             foldl (fun m t => <[id t := zero]> m) m ts !! k
             = if bool_decide (k ∈ map id ts) then Some zero else m !! k).
  { induction ts as [|t ts IH]; intros m; cbn [foldl map].
    - by rewrite bool_decide_eq_false_2 by apply not_elem_of_nil.
    - rewrite IH. destruct (decide (k = id t)) as [->|Hne].
      + rewrite (bool_decide_eq_true_2 (id t ∈ id t :: map id ts))
          by apply list_elem_of_here.
        case_bool_decide; [done|apply lookup_insert_eq].
      + rewrite lookup_insert_ne by done.
        rewrite (bool_decide_ext (k ∈ id t :: map id ts) (k ∈ map id ts));
          [done|].
        rewrite elem_of_cons. split; [by intros [?|?]|by right]. }
  rewrite H. by case_bool_decide.
Qed.

(** After a click on Start the quiz is either still not started, with the
    state as it was, or started with all tallies at zero. *)
Lemma startQuiz_tallies (v : revision) (inputs : list string) (p : Page) :
  let s' := st (step v (ClickStart inputs) p) in
  s' = st p ∨ quizStarted s' = true ∧ tallies_zeroed s'.
Proof.
  cbn zeta. cbn [step]. unfold startQuiz.
  destruct (length (List.filter _ _) =? 0)%nat; [by left|].
  destruct (length (questions (st p)) =? 0)%nat; [by left|].
  right.
  match goal with |- context [goToNextQuestion v ?p1] =>
    pose proof (goToNextQuestion_state v p1) as (_ & H2 & H3 & (H4 & H5 & H6) & _);
    destruct (goToNextQuestion v p1) as [p2|p2] end;
    cbn [settle and_then st buildTeamButtons with_standings
         quizStarted teams scores answeredCount correctCount] in *;
    (split; [done|]); intros k; rewrite H3, H4, H5, H6;
    by rewrite !zeroed_lookup.
Qed.

(** C2, as the code has it: a confirmed reset rewinds the position to -1,
    clears both selections and the started flag and empties the standings
    table; it leaves the question list, the team list and the three tally
    maps as they were.  The tallies are set to zero by the next successful
    start.  A reset that is not confirmed does nothing. *)
Theorem resetQuiz_effect (p : Page) :
  let s := st p in
  let s' := st (resetQuiz true p) in
  currentIndex s' = -1
  ∧ selectedOptionIndex s' = None
  ∧ selectedTeamId s' = None
  ∧ quizStarted s' = false
  ∧ questions s' = questions s
  ∧ teams s' = teams s
  ∧ same_tallies s s'
  ∧ standingsBody (ui (resetQuiz true p)) = []
  ∧ resetQuiz false p = p
  ∧ ∀ v inputs,
      let s'' := st (step v (ClickStart inputs) (resetQuiz true p)) in
      (quizStarted s'' = false ∧ same_tallies s s'')
      ∨ (quizStarted s'' = true ∧ tallies_zeroed s'').
Proof.
  cbn zeta. do 9 (split; [by repeat split|]).
  intros v inputs.
  destruct (startQuiz_tallies v inputs (resetQuiz true p)) as [->|H];
    [left|by right].
  by repeat split.
Qed.

(** C2, as stated, fails: after one scored answer a reset leaves the
    team's score and both of its counters where they were, neither removed
    nor set to zero. *)
Lemma reset_keeps_tallies :
  let p := run Current (first_answer Current) demo_page in
  let p' := step Current (ClickReset true) p in
  tallies_of (st p) "team-0" = (Some (Int 10), Some 1, Some 1)
  ∧ tallies_of (st p') "team-0" = (Some (Int 10), Some 1, Some 1)
  ∧ scores (st p') ≠ ∅
  ∧ scores (st p') !! "team-0" ≠ Some (Int 0)
  ∧ answeredCount (st p') !! "team-0" ≠ Some 0
  ∧ correctCount (st p') !! "team-0" ≠ Some 0.
Proof.
  cbn zeta.
  set (p' := step Current (ClickReset true)
               (run Current (first_answer Current) demo_page)).
  assert (Hs : scores (st p') !! "team-0" = Some (Int 10))
    by (vm_compute; reflexivity).
  assert (Ha : answeredCount (st p') !! "team-0" = Some 1)
    by (vm_compute; reflexivity).
  assert (Hc : correctCount (st p') !! "team-0" = Some 1)
    by (vm_compute; reflexivity).
  split; [vm_compute; reflexivity|].
  split; [unfold tallies_of; by rewrite Hs, Ha, Hc|].
  rewrite Hs, Ha, Hc. repeat split; try congruence.
  intros Hempty. rewrite Hempty, lookup_empty in Hs. discriminate.
Qed.

(** ** Submitting twice *)

(** In the current revision the submit button is disabled by a scored
    submission, so a second click right after the first finds no listener
    to run. *)
Lemma submit_click_twice (p : Page) :
  step Current ClickSubmit (step Current ClickSubmit p)
  = step Current ClickSubmit p.
Proof.
  cbn [step]. destruct (submitDisabled (ui p)) eqn:Hd; [by rewrite Hd|].
  unfold confirmScore.
  destruct (nothing_to_score (st p)) eqn:Hn; cbn [settle].
  - by rewrite Hd, Hn.
  - destruct (maybeScore p) as [p'|p'] eqn:Hm; cbn [and_then settle].
    + reflexivity.
    + assert (p' = p) as ->.
      { unfold maybeScore in Hm. rewrite Hn in Hm.
        destruct (selectedOptionIndex (st p)), (selectedTeamId (st p)),
          (Js.index (questions (st p)) (currentIndex (st p)));
          try destruct (List.find _ _); congruence. }
      by rewrite Hd, Hn, Hm.
Qed.

(** C1 on the code: team "Red" answers the first question correctly and is
    scored; the team button is then clicked again on the same question
    (followed, in the current revision, by the re-enabled submit button) and
    the same answer is scored a second time.  [confirmScore] itself, called
    again on the scored page, does the same. *)
Theorem second_submission_scores_again :
  (∀ v,
     let p1 := run v (first_answer v) demo_page in
     let p2 := run v (answer_again v) p1 in
     currentIndex (st p1) = 0
     ∧ currentIndex (st p2) = 0
     ∧ tallies_of (st p1) "team-0" = (Some (Int 10), Some 1, Some 1)
     ∧ tallies_of (st p2) "team-0" = (Some (Int 20), Some 2, Some 2))
  ∧ (let p1 := run Current (first_answer Current) demo_page in
     tallies_of (st (settle (confirmScore p1))) "team-0"
     = (Some (Int 20), Some 2, Some 2))
  ∧ (let p1 := run Earlier (first_answer Earlier) demo_page in
     tallies_of (st (settle (maybeScore p1))) "team-0"
     = (Some (Int 20), Some 2, Some 2)).
Proof.
  split; [|split].
  - intros [|]; vm_compute; repeat split; reflexivity.
  - vm_compute. reflexivity.
  - vm_compute. reflexivity.
Qed.

(** C4 on the code: in both revisions a sequence of start, select and submit
    events reaches a started quiz that still shows its first question while
    one team has two answers counted. *)
Theorem answered_exceeds_presented (v : revision) :
  let es := first_answer v ++ answer_again v in
  let s := st (run v es demo_page) in
  forallb not_reset es = true
  ∧ quizStarted s = true
  ∧ currentIndex s = 0
  ∧ answeredCount s !! "team-0" = Some 2
  ∧ ¬ (2 ≤ currentIndex s + 1).
Proof.
  destruct v; vm_compute; repeat split; congruence.
Qed.

(** ** Worked scenarios *)

(** Right after the start every team has score 0 and the table lists the
    teams in the order they were entered. *)
Example standings_tie_keeps_entry_order :
  map row_name (standingsBody (ui (step Current (ClickStart ["Red"; "Blue"]) demo_page)))
  = ["Red"; "Blue"].
Proof. vm_compute. reflexivity. Qed.

(** Once the second team has scored it is listed first. *)
Example standings_leader_first :
  let es := [ClickStart ["Red"; "Blue"]; ClickOption 2; ClickTeam "team-1"; ClickSubmit] in
  map (fun r => (row_name r, score r, answered r, correct r))
      (standingsBody (ui (run Current es demo_page)))
  = [("Blue", 10, 1, 1); ("Red", 0, 0, 0)].
Proof. vm_compute. reflexivity. Qed.

(** Two questions, teams Red and Blue: Red answers the first question
    correctly, Next shows the second question, and a further Next ends the
    quiz without moving the position. *)
Example two_question_quiz :
  let p1 := run Current (first_answer Current) demo_page in
  let p2 := step Current ClickNext p1 in
  let p3 := step Current ClickNext p2 in
  tallies_of (st p1) "team-0" = (Some (Int 10), Some 1, Some 1)
  ∧ currentIndex (st p2) = 1
  ∧ optionButtons (ui p2) = 4%nat
  ∧ currentIndex (st p3) = 1
  ∧ optionButtons (ui p3) = 0%nat.
Proof. vm_compute. repeat split; reflexivity. Qed.

(** A submission with an option but no team chosen changes nothing: the
    submit button is still disabled, and [confirmScore] itself returns at
    its guard. *)
Example submit_without_team :
  let p := run Current [ClickStart ["Red"; "Blue"]; ClickOption 2] demo_page in
  step Current ClickSubmit p = p ∧ settle (confirmScore p) = p.
Proof. vm_compute. split; reflexivity. Qed.

(** A click on Start in the middle of a quiz is accepted and starts over
    at the first question with fresh tallies. *)
Example start_mid_quiz_starts_over :
  let p := run Current (first_answer Current ++ [ClickNext]) demo_page in
  let p' := step Current (ClickStart ["Green"]) p in
  currentIndex (st p) = 1
  ∧ currentIndex (st p') = 0
  ∧ map id (teams (st p')) = ["team-0"]
  ∧ tallies_of (st p') "team-0" = (Some (Int 0), Some 0, Some 0).
Proof. vm_compute. repeat split; reflexivity. Qed.


(** ** Session: invariants kept by every click *)

Lemma find_team_id (sel : string) (ts : list Team) (team : Team) :
  List.find (fun t => String.eqb (id t) sel) ts = Some team → id team = sel.
Proof. intros [_ H]%find_some. by apply String.eqb_eq. Qed.

Lemma find_team_Some (sel : string) (ts : list Team) :
  sel ∈ map id ts →
  ∃ team, List.find (fun t => String.eqb (id t) sel) ts = Some team.
Proof.
  induction ts as [|t ts IH]; cbn [map List.find].
  - by intros ?%elem_of_nil.
  - intros [->|Hin]%elem_of_cons.
    + rewrite String.eqb_refl. eauto.
    + destruct (String.eqb (id t) sel); eauto.
Qed.

(** The three outcomes of [maybeScore]: nothing to score, an exception
    before anything is written, or one answer tallied. *)
Lemma maybeScore_cases (p : Page) :
  (nothing_to_score (st p) = true ∧ maybeScore p = Done p)
  ∨ (nothing_to_score (st p) = false ∧ maybeScore p = Throws p
     ∧ (Js.index (questions (st p)) (currentIndex (st p)) = None
        ∨ ∃ sel, selectedTeamId (st p) = Some sel
                 ∧ List.find (fun t => String.eqb (id t) sel) (teams (st p)) = None))
  ∨ (∃ opt sel q team,
       selectedOptionIndex (st p) = Some opt
       ∧ selectedTeamId (st p) = Some sel
       ∧ sel ≠ ""
       ∧ Js.index (questions (st p)) (currentIndex (st p)) = Some q
       ∧ List.find (fun t => String.eqb (id t) sel) (teams (st p)) = Some team
       ∧ id team = sel
       ∧ maybeScore p =
           Done (with_standings
                   {| st := tally (st p) q opt sel;
                      ui := ui (with_options p (optionButtons (ui p)) true) |}
                   (renderStandings (tally (st p) q opt sel)))).
Proof.
  unfold maybeScore, nothing_to_score.
  destruct (selectedOptionIndex (st p)) as [opt|]; [|by left].
  destruct (selectedTeamId (st p)) as [sel|]; [|by left].
  destruct (Js.truthy_str sel) eqn:Hsel; cbn [negb]; [|by left].
  right.
  destruct (Js.index (questions (st p)) (currentIndex (st p))) as [q|];
    [|left; eauto].
  destruct (List.find _ (teams (st p))) as [team|] eqn:Hfind.
  - right. exists opt, sel, q, team.
    pose proof (find_team_id _ _ _ Hfind) as Hid. rewrite Hid.
    apply truthy_str_ne in Hsel. by repeat split.
  - left. split; [done|]. split; [done|]. right. by exists sel.
Qed.

Lemma tally_sound (s : State) (q : Question) (opt : Z) (k : string) :
  tallies_sound s → k ∈ map id (teams s) → tallies_sound (tally s q opt k).
Proof.
  intros Hs Hk k'. destruct (Hs k') as [Hin Hout].
  unfold tally; cbn [teams scores answeredCount correctCount].
  destruct (decide (k' = k)) as [->|Hne].
  - split; [|done]. intros _. destruct (Hin Hk) as (z & a & c & Hz & Ha & Hc & Hle).
    rewrite Hz, Ha, Hc; cbn [count_or_0 default add_num].
    destruct (opt =? correctIndex q); rewrite ?lookup_insert_eq.
    + eexists _, _, _. repeat split; try done; simpl; lia.
    + eexists _, _, _. repeat split; try done; simpl; lia.
  - destruct (opt =? correctIndex q); rewrite ?lookup_insert_ne by done; done.
Qed.

Lemma index_in_range {A} (l : list A) (i : Z) :
  0 ≤ i < Z.of_nat (length l) → is_Some (Js.index l i).
Proof.
  intros Hi. unfold Js.index. destruct (Z.ltb_spec i 0); [lia|].
  apply lookup_lt_is_Some_2. lia.
Qed.

(** [maybeScore] on a sound page: it does not throw and leaves a sound page. *)
Lemma maybeScore_page_ok (p : Page) :
  page_ok p → ∃ p', maybeScore p = Done p' ∧ page_ok p'.
Proof.
  intros Hp. pose proof Hp as (Hci & Hbtn & Hsel & Hopt & Hnb & Hsound).
  destruct (maybeScore_cases p)
    as [[_ ->]|[(Hn & _ & [Hidx|(sel & Hs & Hfind)])
               |(opt & sel & q & team & Ho & Hs & _ & Hq & Hfind & Hid & ->)]].
  - by exists p.
  - exfalso. unfold nothing_to_score in Hn.
    destruct (selectedOptionIndex (st p)) eqn:Ho; [|done].
    destruct (index_in_range (questions (st p)) (currentIndex (st p)))
      as [q Hq]; [|congruence].
    split; [apply Hopt; eauto|lia].
  - exfalso. destruct (find_team_Some sel (teams (st p)) (Hsel _ Hs)); congruence.
  - eexists. split; [done|].
    unfold page_ok; cbn [st ui with_standings with_options tally questions
      currentIndex teams selectedOptionIndex selectedTeamId teamButtons
      optionButtons].
    split_and!; try (done || lia).
    apply tally_sound; [done|]. by apply Hsel.
Qed.

Lemma confirmScore_page_ok (p : Page) :
  page_ok p → ∃ p', confirmScore p = Done p' ∧ page_ok p'.
Proof.
  intros Hp. unfold confirmScore.
  destruct (nothing_to_score (st p)); [by exists p|].
  destruct (maybeScore_page_ok p Hp) as (p' & -> & Hp'). cbn [and_then].
  eexists. split; [done|]. exact Hp'.
Qed.

Lemma zeroed_sound (s : State) :
  scores s = zeroed (Int 0) (teams s) →
  answeredCount s = zeroed 0 (teams s) →
  correctCount s = zeroed 0 (teams s) →
  tallies_sound s.
Proof.
  intros Hs Ha Hc k. rewrite Hs, Ha, Hc, !zeroed_lookup.
  split; intros Hk.
  - rewrite !bool_decide_eq_true_2 by done. exists 0, 0, 0. by repeat split.
  - by rewrite !bool_decide_eq_false_2 by done.
Qed.

Lemma checkSubmitButtonState_ui (p : Page) :
  optionButtons (ui (checkSubmitButtonState p)) = optionButtons (ui p)
  ∧ optionsDisabled (ui (checkSubmitButtonState p)) = optionsDisabled (ui p)
  ∧ teamButtons (ui (checkSubmitButtonState p)) = teamButtons (ui p)
  ∧ standingsBody (ui (checkSubmitButtonState p)) = standingsBody (ui p).
Proof.
  unfold checkSubmitButtonState.
  by destruct (selectedOptionIndex (st p)), (selectedTeamId (st p)).
Qed.

Lemma checkSubmitButtonState_page_ok (p : Page) :
  page_ok p → page_ok (checkSubmitButtonState p).
Proof.
  unfold page_ok. cbn zeta.
  destruct (checkSubmitButtonState_ui p) as (-> & _ & -> & _).
  by rewrite checkSubmitButtonState_st.
Qed.

(** A click on Next when a next question exists: what the page is afterwards. *)
Lemma goToNextQuestion_advance (v : revision) (p : Page) :
  quizStarted (st p) = true →
  -1 ≤ currentIndex (st p) →
  currentIndex (st p) + 1 < Z.of_nat (length (questions (st p))) →
  ∃ p' q,
    goToNextQuestion v p = Done p'
    ∧ Js.index (questions (st p)) (currentIndex (st p) + 1) = Some q
    ∧ currentIndex (st p') = currentIndex (st p) + 1
    ∧ selectedOptionIndex (st p') = None
    ∧ selectedTeamId (st p') = None
    ∧ questions (st p') = questions (st p)
    ∧ teams (st p') = teams (st p)
    ∧ quizStarted (st p') = true
    ∧ same_tallies (st p) (st p')
    ∧ optionButtons (ui p') = length (options q)
    ∧ optionsDisabled (ui p') = false
    ∧ teamButtons (ui p') = teamButtons (ui p)
    ∧ standingsBody (ui p') = standingsBody (ui p)
    ∧ submitDisabled (ui p') =
        match v with Current => true | Earlier => submitDisabled (ui p) end.
Proof.
  intros Hq Hlo Hhi.
  destruct (index_in_range (questions (st p)) (currentIndex (st p) + 1))
    as [q Hidx]; [lia|].
  unfold goToNextQuestion. rewrite Hq; cbn [negb orb].
  destruct (Nat.eqb_spec (length (questions (st p))) 0) as [H0|_]; [lia|].
  destruct (Z.leb_spec (Z.of_nat (length (questions (st p))))
              (currentIndex (st p) + 1)); [lia|].
  unfold renderQuestion.
  destruct v; cbn [st with_submit questions currentIndex]; rewrite Hidx;
    eexists _, q; split_and!; by try done.
Qed.

Lemma goToNextQuestion_page_ok (v : revision) (p : Page) :
  page_ok p → ∃ p', goToNextQuestion v p = Done p' ∧ page_ok p'.
Proof.
  intros Hp. pose proof Hp as (Hci & Hbtn & Hsel & Hopt & Hnb & Hsound).
  destruct (quizStarted (st p)) eqn:Hq.
  - destruct (Z.ltb_spec (currentIndex (st p) + 1)
                (Z.of_nat (length (questions (st p))))) as [Hlt|Hge].
    + destruct (goToNextQuestion_advance v p Hq) as
        (p' & q & -> & _ & Hci' & Ho' & Ht' & Hqs' & Hts' & _ & (Hs1 & Hs2 & Hs3)
         & _ & _ & Hbtn' & _); [lia..|].
      exists p'. split; [done|].
      unfold page_ok; cbn zeta.
      rewrite Hci', Ho', Ht', Hqs', Hts', Hbtn'.
      split_and!; try (done || lia).
      intros k. unfold tallies_sound in Hsound.
      rewrite Hts', Hs1, Hs2, Hs3. apply Hsound.
    + unfold goToNextQuestion. rewrite Hq; cbn [negb orb].
      destruct (length (questions (st p)) =? 0)%nat; [by exists p|].
      destruct (Z.leb_spec (Z.of_nat (length (questions (st p))))
                  (currentIndex (st p) + 1)); [|lia].
      eexists. split; [done|].
      unfold page_ok; cbn.
      split_and!; try (done || lia).
  - unfold goToNextQuestion. rewrite Hq. by exists p.
Qed.

Lemma startQuiz_page_ok (v : revision) (inputs : list string) (p : Page) :
  page_ok p → ∃ p', startQuiz v inputs p = Done p' ∧ page_ok p'.
Proof.
  intros Hp. pose proof Hp as (Hci & Hbtn & Hsel & Hopt & Hnb & Hsound).
  unfold startQuiz.
  destruct (length (List.filter _ _) =? 0)%nat; [by exists p|].
  destruct (Nat.eqb_spec (length (questions (st p))) 0) as [H0|H0];
    [by exists p|].
  match goal with |- context [goToNextQuestion v ?p1] =>
    destruct (goToNextQuestion_advance v p1) as
      (p' & q & -> & _ & Hci' & Ho' & Ht' & Hqs' & Hts' & _ & (Hs1 & Hs2 & Hs3)
       & _ & _ & _ & _ & _) end;
    cbn [st quizStarted currentIndex questions teams scores answeredCount
         correctCount] in *; [done|lia|lia|].
  cbn [and_then]. eexists. split; [done|].
  unfold page_ok;
    cbn [st ui with_standings buildTeamButtons teamButtons optionButtons].
  rewrite Hci', Ho', Ht', Hqs'.
  split_and!; try (done || lia).
  apply zeroed_sound; by rewrite Hts'.
Qed.

Lemma resetQuiz_page_ok (confirmed : bool) (p : Page) :
  page_ok p → page_ok (resetQuiz confirmed p).
Proof.
  intros Hp. pose proof Hp as (Hci & Hbtn & Hsel & Hopt & Hnb & Hsound).
  unfold resetQuiz. destruct confirmed; cbn [negb]; [|done].
  unfold page_ok; cbn.
  split_and!; try (done || lia).
Qed.

Lemma optionClick_page_ok (v : revision) (i : nat) (p : Page) :
  page_ok p → (i < optionButtons (ui p))%nat →
  ∃ p', optionClick v i p = Done p' ∧ page_ok p'.
Proof.
  intros Hp Hi. pose proof Hp as (Hci & Hbtn & Hsel & Hopt & Hnb & Hsound).
  unfold optionClick. destruct (negb (quizStarted (st p))); [by exists p|].
  assert (Hp' : page_ok (select_option (Z.of_nat i) p)).
  { unfold page_ok; cbn. split_and!; (done || lia). }
  destruct v; eexists; (split; [done|]);
    [by apply checkSubmitButtonState_page_ok|done].
Qed.

Lemma teamClick_page_ok (v : revision) (t : string) (p : Page) :
  page_ok p → t ∈ teamButtons (ui p) →
  ∃ p', teamClick v t p = Done p' ∧ page_ok p'.
Proof.
  intros Hp Ht. pose proof Hp as (Hci & Hbtn & Hsel & Hopt & Hnb & Hsound).
  assert (Hp' : page_ok (select_team t p)).
  { unfold page_ok; cbn. split_and!; try (done || lia).
    intros t' [= <-]. by rewrite <- Hbtn. }
  unfold teamClick. destruct v.
  - eexists. split; [done|]. by apply checkSubmitButtonState_page_ok.
  - by apply maybeScore_page_ok.
Qed.

Lemma step_page_ok (v : revision) (e : Event) (p : Page) :
  page_ok p → page_ok (step v e p).
Proof.
  intros Hp. destruct e as [inputs|c| |i|t|]; cbn [step].
  - by destruct (startQuiz_page_ok v inputs p Hp) as (p' & -> & ?).
  - by apply resetQuiz_page_ok.
  - by destruct (goToNextQuestion_page_ok v p Hp) as (p' & -> & ?).
  - destruct (Nat.ltb_spec i (optionButtons (ui p))); cbn [andb]; [|done].
    destruct (negb (optionsDisabled (ui p))); [|done].
    by destruct (optionClick_page_ok v i p Hp) as (p' & -> & ?).
  - case_bool_decide as Ht; [|done].
    by destruct (teamClick_page_ok v t p Hp Ht) as (p' & -> & ?).
  - destruct v; [|done]. destruct (submitDisabled (ui p)); [done|].
    by destruct (confirmScore_page_ok p Hp) as (p' & -> & ?).
Qed.

Lemma run_page_ok (v : revision) (es : list Event) (p : Page) :
  page_ok p → page_ok (run v es p).
Proof.
  revert p. induction es as [|e es IH]; intros p Hp; [done|].
  rewrite run_cons. by apply IH, step_page_ok.
Qed.

Lemma bootPage_page_ok (qs : list Question) (b : bool) : page_ok (bootPage qs b).
Proof.
  assert (Hsound : tallies_sound (st (bootPage qs b))).
  { intros k. unfold bootPage;
      cbn [st teams scores answeredCount correctCount map].
    split; [by intros ?%elem_of_nil|by rewrite !lookup_empty]. }
  unfold page_ok; cbn zeta. split_and!; try exact Hsound; cbn;
    (done || lia).
Qed.

(** No click replaces the question list. *)
Lemma run_questions (v : revision) (es : list Event) (p : Page) :
  questions (st (run v es p)) = questions (st p).
Proof.
  revert p. induction es as [|e es IH]; intros p; [done|].
  rewrite run_cons, IH. destruct e as [inputs|c| |i|t|]; cbn [step].
  - unfold startQuiz.
    destruct (_ =? _)%nat; [done|]. destruct (_ =? _)%nat; [done|].
    match goal with |- context [goToNextQuestion v ?p1] =>
      pose proof (goToNextQuestion_state v p1) as (H1 & _);
      destruct (goToNextQuestion v p1) end; exact H1.
  - unfold resetQuiz. by destruct c.
  - by destruct (goToNextQuestion_state v p) as (H1 & _).
  - destruct (_ && _); [|done].
    by destruct (optionClick_position v i p) as [(H1 & _) _].
  - destruct (bool_decide _); [|done].
    by destruct (teamClick_position v t p) as (H1 & _).
  - destruct v; [|done]. destruct (submitDisabled _); [done|].
    by destruct (confirmScore_position p) as (H1 & _).
Qed.

(** X1: for a bank whose points are safe integers, in every state reached
    by clicks from a freshly loaded page each team of the roster has an
    integer score (never [NaN]) and two counters with
    [0 <= correctCount <= answeredCount], and the three tally maps hold no
    key that is not the id of a team. *)
Theorem tallies_sound_reachable (v : revision) (qs : list Question) (b : bool)
    (es : list Event) :
  Forall (fun q => safe_integer (points q)) qs →
  tallies_sound (st (run v es (bootPage qs b))).
Proof. intros _. apply (run_page_ok v es), bootPage_page_ok. Qed.

Lemma tallies_sound_reachable_witness :
  Forall (fun q => safe_integer (points q)) demo_questions
  ∧ tallies_sound
      (st (run Current (first_answer Current ++ answer_again Current)
             (bootPage demo_questions true))).
Proof.
  assert (H : Forall (fun q => safe_integer (points q)) demo_questions).
  { repeat constructor; vm_compute; congruence. }
  split; [exact H|]. apply (tallies_sound_reachable Current _ true _ H).
Defined.

(** X2: in every state reached by clicks from a freshly loaded page, the
    position is between -1 and the index of the last question, the team
    buttons are those of the roster, a selected team belongs to the roster,
    and an option is selected only while a question is shown. *)
Theorem position_and_selection_reachable (v : revision) (qs : list Question)
    (b : bool) (es : list Event) :
  let p := run v es (bootPage qs b) in
  -1 ≤ currentIndex (st p) < Z.of_nat (length (questions (st p)))
  ∧ questions (st p) = qs
  ∧ teamButtons (ui p) = map id (teams (st p))
  ∧ (∀ t, selectedTeamId (st p) = Some t → t ∈ map id (teams (st p)))
  ∧ (is_Some (selectedOptionIndex (st p)) →
     is_Some (Js.index (questions (st p)) (currentIndex (st p)))).
Proof.
  cbn zeta.
  destruct (run_page_ok v es (bootPage qs b) (bootPage_page_ok qs b))
    as (Hci & Hbtn & Hsel & Hopt & _ & _).
  split_and!; try (done || lia).
  - by rewrite run_questions.
  - intros Ho. apply index_in_range. split; [by apply Hopt|lia].
Qed.

(** X3: in every state reached by clicks from a freshly loaded page, no
    listener ends in an exception: starting, going to the next question,
    choosing an option, clicking an existing team button, submitting
    (whether or not the button is enabled) and reading the question aloud
    all run to their end. *)
Theorem listeners_never_throw (v : revision) (qs : list Question) (b : bool)
    (es : list Event) :
  let p := run v es (bootPage qs b) in
  (∀ inputs, ∃ p', startQuiz v inputs p = Done p')
  ∧ (∃ p', goToNextQuestion v p = Done p')
  ∧ (∀ i, ∃ p', optionClick v i p = Done p')
  ∧ (∀ t, t ∈ teamButtons (ui p) → ∃ p', teamClick v t p = Done p')
  ∧ (∃ p', confirmScore p = Done p')
  ∧ (∃ p', maybeScore p = Done p')
  ∧ readCurrentQuestion (st p) ≠ Raises.
Proof.
  cbn zeta.
  pose proof (run_page_ok v es (bootPage qs b) (bootPage_page_ok qs b)) as Hp.
  split_and!.
  - intros inputs. destruct (startQuiz_page_ok v inputs _ Hp) as (p' & ? & _); eauto.
  - destruct (goToNextQuestion_page_ok v _ Hp) as (p' & ? & _); eauto.
  - intros i. unfold optionClick. destruct (negb _); [eauto|]. destruct v; eauto.
  - intros t Ht. destruct (teamClick_page_ok v t _ Hp Ht) as (p' & ? & _); eauto.
  - destruct (confirmScore_page_ok _ Hp) as (p' & ? & _); eauto.
  - destruct (maybeScore_page_ok _ Hp) as (p' & ? & _); eauto.
  - destruct Hp as (Hci & _). unfold readCurrentQuestion.
    destruct (Z.ltb_spec (currentIndex (st (run v es (bootPage qs b)))) 0);
      cbn [orb]; [done|].
    destruct (_ =? _)%nat; [done|].
    destruct (index_in_range (questions (st (run v es (bootPage qs b))))
                (currentIndex (st (run v es (bootPage qs b))))) as [q ->];
      [lia|done].
Qed.

(** ** Session: when nothing can be scored *)

Lemma nothing_to_score_None (s : State) :
  selectedOptionIndex s = None → nothing_to_score s = true.
Proof. unfold nothing_to_score. by intros ->. Qed.

Lemma same_tallies_trans (s1 s2 s3 : State) :
  same_tallies s1 s2 → same_tallies s2 s3 → same_tallies s1 s3.
Proof. intros (?&?&?) (?&?&?). repeat split; congruence. Qed.

Lemma goToNextQuestion_option (v : revision) (p : Page) :
  selectedOptionIndex (st p) = None →
  selectedOptionIndex (st (settle (goToNextQuestion v p))) = None.
Proof.
  intros Ho. unfold goToNextQuestion.
  destruct (_ || _); [done|]. destruct (_ <=? _); [done|].
  rewrite renderQuestion_st. by destruct v.
Qed.

(** With no option selected, a click that is neither Start nor an option
    scores nothing and selects no option. *)
Lemma step_unarmed (v : revision) (e : Event) (p : Page) :
  selectedOptionIndex (st p) = None → no_new_option e = true →
  selectedOptionIndex (st (step v e p)) = None
  ∧ same_tallies (st p) (st (step v e p)).
Proof.
  intros Ho He. destruct e as [inputs|c| |i|t|]; try discriminate; cbn [step].
  - unfold resetQuiz. destruct c; by repeat split.
  - split; [by apply goToNextQuestion_option|].
    by destruct (goToNextQuestion_state v p) as (_ & _ & _ & ? & _).
  - destruct (bool_decide _); [|by repeat split].
    unfold teamClick. destruct v; cbn [settle].
    + rewrite checkSubmitButtonState_st. by repeat split.
    + unfold maybeScore.
      rewrite (nothing_to_score_None (st (select_team t p))) by done.
      by repeat split.
  - destruct v; [|by repeat split].
    destruct (submitDisabled _); [by repeat split|].
    unfold confirmScore. rewrite (nothing_to_score_None (st p)) by done.
    by repeat split.
Qed.

(** X4: while no option is selected, no sequence of clicks on Next, on team
    buttons, on Submit or on Reset changes any score or counter; a new answer
    needs a new click on an option. *)
Theorem no_scoring_without_option (v : revision) (es : list Event) (p : Page) :
  selectedOptionIndex (st p) = None →
  forallb no_new_option es = true →
  selectedOptionIndex (st (run v es p)) = None
  ∧ same_tallies (st p) (st (run v es p)).
Proof.
  revert p. induction es as [|e es IH]; intros p Ho Hes.
  - by repeat split.
  - cbn [forallb] in Hes. apply andb_prop in Hes as [He Hes].
    destruct (step_unarmed v e p Ho He) as [Ho' Ht'].
    rewrite run_cons. destruct (IH _ Ho' Hes) as [Ho'' Ht''].
    split; [done|]. by eapply same_tallies_trans.
Qed.

Lemma no_scoring_without_option_witness :
  let p := run Earlier [ClickStart ["Red"; "Blue"]; ClickOption 2; ClickTeam "team-0"; ClickNext]
             demo_page in
  let es := [ClickTeam "team-0"; ClickTeam "team-1"; ClickSubmit; ClickTeam "team-0"] in
  selectedOptionIndex (st p) = None
  ∧ forallb no_new_option es = true
  ∧ selectedOptionIndex (st (run Earlier es p)) = None
  ∧ same_tallies (st p) (st (run Earlier es p)).
Proof.
  cbn zeta. split; [reflexivity|]. split; [reflexivity|].
  apply (no_scoring_without_option Earlier); reflexivity.
Defined.

(** While no quiz runs and no option is selected, a click other than Start
    leaves the position, the question list, the roster and the tallies as
    they are. *)
Lemma step_idle (v : revision) (e : Event) (p : Page) :
  idle (st p) → not_start e = true →
  idle (st (step v e p))
  ∧ same_tallies (st p) (st (step v e p))
  ∧ teams (st (step v e p)) = teams (st p)
  ∧ (currentIndex (st (step v e p)) = currentIndex (st p)
     ∨ currentIndex (st (step v e p)) = -1).
Proof.
  intros [Hq Ho] He.
  assert (Hsame : ∀ s', same_position (st p) s' → same_tallies (st p) s' →
            selectedOptionIndex s' = None →
            idle s' ∧ same_tallies (st p) s' ∧ teams s' = teams (st p)
            ∧ (currentIndex s' = currentIndex (st p) ∨ currentIndex s' = -1)).
  { intros s' (_ & Hci & Hqs & Hts) Ht Ho'. unfold idle. rewrite Hqs.
    split_and!; try done. by left. }
  destruct e as [inputs|c| |i|t|]; try discriminate; cbn [step].
  - unfold resetQuiz. destruct c; cbn [negb].
    + unfold idle, same_tallies; cbn. split_and!; try done. by right.
    + by apply Hsame; [apply same_position_refl|apply same_tallies_refl|].
  - unfold goToNextQuestion. rewrite Hq. cbn [negb orb settle].
    by apply Hsame; [apply same_position_refl|apply same_tallies_refl|].
  - destruct (_ && _);
      [|by apply Hsame; [apply same_position_refl|apply same_tallies_refl|]].
    unfold optionClick. rewrite Hq. cbn [negb settle].
    by apply Hsame; [apply same_position_refl|apply same_tallies_refl|].
  - destruct (step_unarmed v (ClickTeam t) p Ho eq_refl) as [Ho' Ht'].
    cbn [step] in Ho', Ht'.
    destruct (bool_decide _);
      [|by apply Hsame; [apply same_position_refl|apply same_tallies_refl|]].
    apply Hsame; [apply teamClick_position|done..].
  - destruct (step_unarmed v ClickSubmit p Ho eq_refl) as [Ho' Ht'].
    cbn [step] in Ho', Ht'.
    destruct v;
      [|by apply Hsame; [apply same_position_refl|apply same_tallies_refl|]].
    destruct (submitDisabled _);
      [by apply Hsame; [apply same_position_refl|apply same_tallies_refl|]|].
    apply Hsame; [apply confirmScore_position|done..].
Qed.

(** X5: after a confirmed reset, and until Start is clicked, no click
    changes anything but the selected team: the quiz stays stopped at
    position -1 and the tallies and the roster stay what they were before the
    reset. *)
Theorem after_reset_only_start_matters (v : revision) (es : list Event) (p : Page) :
  forallb not_start es = true →
  let p' := run v es (resetQuiz true p) in
  quizStarted (st p') = false
  ∧ currentIndex (st p') = -1
  ∧ selectedOptionIndex (st p') = None
  ∧ same_tallies (st p) (st p')
  ∧ teams (st p') = teams (st p)
  ∧ questions (st p') = questions (st p).
Proof.
  intros Hes. cbn zeta.
  assert (H : ∀ p0, idle (st p0) → currentIndex (st p0) = -1 →
            idle (st (run v es p0)) ∧ currentIndex (st (run v es p0)) = -1
            ∧ same_tallies (st p0) (st (run v es p0))
            ∧ teams (st (run v es p0)) = teams (st p0)).
  { induction es as [|e es IH]; intros p0 Hidle Hci.
    { cbn [run foldl]. by split_and!. }
    cbn [forallb] in Hes. apply andb_prop in Hes as [He Hes].
    destruct (step_idle v e p0 Hidle He) as (Hidle' & Ht' & Hts' & Hci').
    rewrite run_cons.
    destruct (IH Hes (step v e p0) Hidle') as (? & ? & ? & Hts''); [lia|].
    split_and!; try done; [by eapply same_tallies_trans|congruence]. }
  destruct (H (resetQuiz true p)) as ([Hq Ho] & Hci & Ht & Hts); [done..|].
  rewrite run_questions. by split_and!.
Qed.

Lemma after_reset_only_start_matters_witness :
  let p := run Current (first_answer Current) demo_page in
  let es := [ClickTeam "team-1"; ClickSubmit; ClickNext; ClickOption 0; ClickReset true] in
  forallb not_start es = true
  ∧ tallies_of (st p) "team-0" = (Some (Int 10), Some 1, Some 1)
  ∧ quizStarted (st (run Current es (resetQuiz true p))) = false
  ∧ currentIndex (st (run Current es (resetQuiz true p))) = -1
  ∧ same_tallies (st p) (st (run Current es (resetQuiz true p))).
Proof.
  cbn zeta. split; [reflexivity|]. split; [vm_compute; reflexivity|].
  pose proof (after_reset_only_start_matters Current
    [ClickTeam "team-1"; ClickSubmit; ClickNext; ClickOption 0; ClickReset true]
    (run Current (first_answer Current) demo_page) eq_refl)
    as (H1 & H2 & _ & H3 & _).
  split; [exact H1|]. split; [exact H2|exact H3].
Defined.

(** ** Scoring: what one submission changes *)




(** ** Going through the questions *)

(** X7: from a quiz in progress at position [i] with [N] questions, [n]
    clicks on Next lead to position [min (i + n) (N - 1)] and change no
    tally; once the last question is shown, a further click on Next leaves
    the state as it is and only removes the option buttons. *)
Theorem next_clicks_stop_at_last_question (v : revision) (n : nat) (p : Page) :
  InProgress (st p) →
  let p' := run v (replicate n ClickNext) p in
  currentIndex (st p')
    = Z.min (currentIndex (st p) + Z.of_nat n)
            (Z.of_nat (length (questions (st p))) - 1)
  ∧ same_tallies (st p) (st p')
  ∧ (currentIndex (st p) = Z.of_nat (length (questions (st p))) - 1 →
     st (step v ClickNext p) = st p
     ∧ optionButtons (ui (step v ClickNext p)) = 0%nat).
Proof.
  intros Hp. cbn zeta. split_and!.
  - revert p Hp. induction n as [|n IH]; intros p Hp.
    + cbn [replicate run foldl]. destruct Hp as [_ ?]. lia.
    + cbn [replicate]. rewrite run_cons.
      destruct (step_in_progress v ClickNext p Hp eq_refl) as (Hp' & Hqs & _ & _).
      rewrite (IH _ Hp'), Hqs.
      destruct (goToNextQuestion_state v p) as (_ & _ & _ & _ & Hci).
      cbn [step]. rewrite Hci. destruct Hp as [-> Hi].
      destruct (Nat.eqb_spec (length (questions (st p))) 0); [lia|].
      cbn [andb negb]. destruct (Z.ltb_spec (currentIndex (st p) + 1)
        (Z.of_nat (length (questions (st p))))); lia.
  - revert p Hp. induction n as [|n IH]; intros p Hp; [done|].
    cbn [replicate]. rewrite run_cons.
    destruct (step_in_progress v ClickNext p Hp eq_refl) as (Hp' & _).
    eapply same_tallies_trans; [|by apply IH].
    by destruct (goToNextQuestion_state v p) as (_ & _ & _ & ? & _).
  - intros Hlast. destruct Hp as [Hq Hi]. cbn [step]. unfold goToNextQuestion.
    rewrite Hq; cbn [negb orb].
    destruct (Nat.eqb_spec (length (questions (st p))) 0); [lia|].
    destruct (Z.leb_spec (Z.of_nat (length (questions (st p))))
                (currentIndex (st p) + 1)); [done|lia].
Qed.

Lemma next_clicks_stop_at_last_question_witness :
  let p := step Current (ClickStart ["Red"; "Blue"]) demo_page in
  InProgress (st p)
  ∧ currentIndex (st (run Current (replicate 5 ClickNext) p)) = 1
  ∧ same_tallies (st p) (st (run Current (replicate 5 ClickNext) p)).
Proof.
  cbn zeta.
  assert (Hp : InProgress (st (step Current (ClickStart ["Red"; "Blue"]) demo_page))).
  { split; [reflexivity|]. vm_compute. split; congruence. }
  split; [exact Hp|].
  destruct (next_clicks_stop_at_last_question Current 5 _ Hp) as (H1 & H2 & _).
  split; [rewrite H1; reflexivity|exact H2].
Defined.

(** ** Starting a quiz *)

Section SortedInput.
Context {A : Type} (key : A → Z).
Local Abbreviation cmp := (fun a b : A => key b - key a).

(** A list that is already in descending order of its keys is left as it
    is by the sort. *)
Lemma sort_by_sorted_id (l : list A) :
  StronglySorted (fun a b => key b ≤ key a) l → sort_by cmp l = l.
Proof.
  induction 1 as [|x l Hl IH Hx]; [done|].
  unfold sort_by in *; cbn [foldr]. rewrite IH.
  destruct Hx as [|y l' Hy _]; [done|]. cbn [insert_by].
  by destruct (Z.ltb_spec 0 (key y - key x)); [lia|].
Qed.
End SortedInput.

Lemma filter_truthy_nil (inputs : list string) :
  List.filter Js.truthy_str (map Js.trim inputs) = []
  ↔ Forall (fun i => Js.trim i = "") inputs.
Proof.
  induction inputs as [|i inputs IH]; cbn [map List.filter]; [done|].
  rewrite Forall_cons, <- IH.
  destruct (Js.truthy_str (Js.trim i)) eqn:Ht.
  - apply truthy_str_ne in Ht. split; [done|]. by intros [? _].
  - split; [|by intros [_ ?]]. intros ?. split; [|done].
    destruct (decide (Js.trim i = "")) as [|Hne]; [done|].
    apply truthy_str_ne in Hne. congruence.
Qed.

(** X8: a click on Start is refused, and changes nothing, when every name
    field is blank or no question is loaded.  Otherwise the roster is the
    list of non-blank names, trimmed and in order, with the ids team-0,
    team-1, ... (all different, even for equal names); all tallies are zero,
    the first question is shown with no selection, there is one button per
    team, and the table lists the teams in the order they were entered. *)
Theorem start_builds_roster (v : revision) (inputs : list string) (p : Page) :
  let names := List.filter Js.truthy_str (map Js.trim inputs) in
  let p' := step v (ClickStart inputs) p in
  (names = [] ↔ Forall (fun i => Js.trim i = "") inputs)
  ∧ (names = [] ∨ questions (st p) = [] → p' = p)
  ∧ (names ≠ [] → questions (st p) ≠ [] →
     map name (teams (st p')) = names
     ∧ map id (teams (st p'))
       = map (fun i => "team-" +:+ pretty i) (seq 0 (length names))
     ∧ NoDup (map id (teams (st p')))
     ∧ tallies_zeroed (st p')
     ∧ quizStarted (st p') = true
     ∧ currentIndex (st p') = 0
     ∧ selectedOptionIndex (st p') = None
     ∧ selectedTeamId (st p') = None
     ∧ teamButtons (ui p') = map id (teams (st p'))
     ∧ standingsBody (ui p')
       = map (fun t => {| row_id := id t; row_name := name t;
                          score := 0; answered := 0; correct := 0 |})
             (teams (st p'))).
Proof.
  cbn zeta. split; [apply filter_truthy_nil|]. split.
  - intros [Hn|Hq]; cbn [step]; unfold startQuiz.
    + by rewrite Hn.
    + rewrite Hq. by destruct (_ =? _)%nat.
  - intros Hn Hq. cbn [step]. unfold startQuiz.
    destruct (List.filter Js.truthy_str (map Js.trim inputs)) as [|n0 ns] eqn:En;
      [done|]. clear Hn.
    cbn [length Nat.eqb].
    set (names := n0 :: ns).
    destruct (Nat.eqb_spec (length (questions (st p))) 0) as [H0|H0].
    { by destruct (questions (st p)). }
    set (teams' := imap (fun index name =>
                           {| id := "team-" +:+ pretty index; name := name |}) names).
    match goal with |- context [goToNextQuestion v ?p1] =>
      destruct (goToNextQuestion_advance v p1) as
        (p1' & q & -> & _ & Hci' & Ho' & Ht' & _ & Hts' & Hq' & (Hs1 & Hs2 & Hs3)
         & _ & _ & _ & _ & _) end;
      cbn [st quizStarted currentIndex questions teams scores answeredCount
           correctCount] in *; [done|lia|lia|].
    cbn [and_then settle st ui with_standings buildTeamButtons teamButtons
         standingsBody].
    assert (Hids : map id teams'
                   = map (fun i => "team-" +:+ pretty i) (seq 0 (length names))).
    { unfold teams'.
      change (map id ?l) with (id <$> l).
      rewrite fmap_imap.
      rewrite (imap_ext _ (fun j _ => "team-" +:+ pretty j)) by done.
      apply imap_seq_0. }
    assert (Hzero : tallies_zeroed (st p1')).
    { intros k. by rewrite Hts', Hs1, Hs2, Hs3, !zeroed_lookup. }
    rewrite Hts', Hci', Ho', Ht', Hq'. split_and!; try done.
    + unfold teams'. change (map name ?l) with (name <$> l).
      rewrite fmap_imap.
      rewrite (imap_ext _ (const (fun x : string => x))) by done.
      by rewrite imap_const, list_fmap_id.
    + rewrite Hids. apply NoDup_fmap_2; [|apply NoDup_seq].
      intros i j Hij.
      by apply (inj (String.app "team-")), (inj pretty) in Hij.
    + unfold renderStandings. rewrite Hts'.
      assert (Hrows : map (standingsRow (st p1')) teams'
                      = map (fun t => {| row_id := id t; row_name := name t;
                                         score := 0; answered := 0; correct := 0 |})
                            teams').
      { apply map_ext_in. intros t Hin%list_elem_of_In.
        destruct (Hzero (id t)) as (Hz1 & Hz2 & Hz3).
        rewrite Hts' in Hz1, Hz2, Hz3.
        rewrite !bool_decide_eq_true_2 in Hz1, Hz2, Hz3
          by (apply list_elem_of_fmap; eauto).
        unfold standingsRow. by rewrite Hz1, Hz2, Hz3. }
      rewrite Hrows. apply (sort_by_sorted_id score).
      clear. induction teams' as [|t ts IH]; constructor; [done|].
      apply Forall_forall. by intros r (t' & -> & _)%list_elem_of_fmap.
Qed.

(** ** [shuffleArray] can produce every order *)

Section ShuffleReach.
Context {A : Type}.
Implicit Types l pre suf : list A.

Lemma fisher_yates_shift (rnd : nat → draw) k i l :
  fisher_yates rnd (S k) i l = fisher_yates (fun n => rnd (S n)) k i l.
Proof.
  revert k l. induction i as [|i IH]; intros k l; cbn [fisher_yates]; [done|].
  destruct (swap l (S i) _); [apply IH|done].
Qed.

(** The first round can bring any element of the part still to be
    shuffled to its last place. *)
Lemma first_round_reach front y suf x :
  x ∈ front ++ [y] →
  ∃ (u : draw) front',
    swap (front ++ y :: suf) (length front)
         (floor_scaled u (length front + 1))
      = Some (front' ++ x :: suf)
    ∧ front' ++ [x] ≡ₚ front ++ [y].
Proof.
  intros [Hin| ->%list_elem_of_singleton]%elem_of_app.
  - apply list_elem_of_lookup in Hin as [j Hj].
    pose proof (lookup_lt_Some _ _ _ Hj) as Hlt.
    destruct (floor_scaled_any (length front) j) as [u Hu]; [lia|].
    exists u, (<[j := y]> front). rewrite Hu. unfold swap.
    rewrite list_lookup_middle by done.
    rewrite (lookup_app_l front) by done. rewrite Hj.
    split.
    + f_equal. rewrite (insert_app_r_alt front) by lia.
      rewrite Nat.sub_diag. cbn [insert list_insert].
      by rewrite insert_app_l by done.
    + rewrite (insert_Permutation_delete front j y x Hj).
      rewrite (delete_Permutation front j x Hj) at 2.
      cbn [app]. rewrite <- !Permutation_middle, !app_nil_r.
      apply Permutation_swap.
  - destruct (floor_scaled_any (length front) (length front)) as [u Hu]; [lia|].
    exists u, front. rewrite Hu. unfold swap.
    rewrite list_lookup_middle by done. split; [|done].
    f_equal. rewrite list_insert_insert_eq.
    apply list_insert_id. by rewrite list_lookup_middle.
Qed.

Lemma fisher_yates_reach n pre pre' suf :
  length pre = S n → pre' ≡ₚ pre →
  ∃ rnd, fisher_yates rnd 0 n (pre ++ suf) = Some (pre' ++ suf).
Proof.
  revert pre pre' suf. induction n as [|n IH]; intros pre pre' suf Hlen Hperm.
  - exists (fun _ => zero_draw). cbn [fisher_yates].
    destruct pre as [|x [|??]]; try discriminate.
    by apply Permutation_singleton_r in Hperm as ->.
  - destruct pre as [|y front _] using rev_ind; [discriminate|].
    rewrite length_app in Hlen; cbn [length] in Hlen.
    destruct pre' as [|x pre'' _] using rev_ind.
    { apply Permutation_nil_l in Hperm. by destruct front. }
    assert (Hx : x ∈ front ++ [y]).
    { rewrite <- Hperm. apply elem_of_app. right. by apply list_elem_of_singleton. }
    destruct (first_round_reach front y suf x Hx) as (u & front' & Hswap & Hfront).
    assert (Hlen' : length front' = S n).
    { apply Permutation_length in Hfront. rewrite !length_app in Hfront.
      cbn [length] in Hfront. lia. }
    destruct (IH front' pre'' (x :: suf) Hlen') as [rnd' Hrnd'].
    { apply (Permutation_app_inv_r [x]). by rewrite Hfront. }
    exists (fun k => match k with O => u | S k' => rnd' k' end).
    cbn [fisher_yates]. rewrite <- !app_assoc. cbn [app].
    replace (S n) with (length front) by lia.
    rewrite Hswap. replace (length front) with (S n) by lia.
    by rewrite fisher_yates_shift.
Qed.

(** X9: every rearrangement of the input is a possible result of
    [shuffleArray]: for each permutation of the array there are results of
    [Math.random] for which the returned copy is that permutation. *)
Theorem shuffle_reaches_every_order l l' :
  l' ≡ₚ l →
  ∃ rnd, shuffled rnd l = l'
         ∧ ∀ (h : gmap nat (list A)) arr,
             h !! arr = Some l →
             shuffleArray rnd h arr
             = Some (fresh (dom h), <[fresh (dom h) := l']> h).
Proof.
  intros Hperm.
  assert (∃ rnd, shuffled rnd l = l') as [rnd Hrnd].
  { destruct l as [|x l0].
    - apply Permutation_nil_r in Hperm as ->. by exists (fun _ => zero_draw).
    - destruct (fisher_yates_reach (length l0) (x :: l0) l' []) as [rnd Hrnd];
        [done..|].
      exists rnd. unfold shuffled.
      replace (length (x :: l0) - 1)%nat with (length l0) by (cbn [length]; lia).
      rewrite !app_nil_r in Hrnd. by rewrite Hrnd. }
  exists rnd. split; [done|]. intros h arr Hl.
  by rewrite (shuffleArray_shuffled rnd h arr l Hl), Hrnd.
Qed.
End ShuffleReach.

Lemma shuffle_reaches_every_order_witness :
  ["z"; "y"; "x"; "w"] ≡ₚ ["w"; "x"; "y"; "z"]
  ∧ ∃ rnd, shuffled rnd ["w"; "x"; "y"; "z"] = ["z"; "y"; "x"; "w"]
           ∧ ∀ (h : gmap nat (list string)) arr,
               h !! arr = Some ["w"; "x"; "y"; "z"] →
               shuffleArray rnd h arr
               = Some (fresh (dom h), <[fresh (dom h) := ["z"; "y"; "x"; "w"]]> h).
Proof.
  assert (H : ["z"; "y"; "x"; "w"] ≡ₚ ["w"; "x"; "y"; "z"]).
  { symmetry. apply (Permutation_rev ["w"; "x"; "y"; "z"]). }
  split; [exact H|]. apply (shuffle_reaches_every_order _ _ H).
Defined.

(** ** [parseCSV] *)

Lemma split_lines_no_LF (s : string) :
  contains LF s = false → split_lines s = [s].
Proof.
  induction s as [|c s IH]; [done|]. cbn [contains split_lines].
  intros [Hc Hs]%orb_false_elim. rewrite Hc.
  destruct s as [|c' s']; [done|].
  cbn [contains] in Hs. apply orb_false_elim in Hs as [Hc' Hs'].
  rewrite Hc', andb_false_r, IH; [done|].
  cbn [contains]. by rewrite Hc', Hs'.
Qed.

(** X10: a text without a line feed (so also the empty text and a text
    that is only a header line) yields no record. *)
Theorem parseCSV_needs_two_lines (text : string) :
  contains LF text = false → parseCSV text = [].
Proof.
  intros H. unfold parseCSV, csvLines. rewrite (split_lines_no_LF text H).
  cbn [map List.filter]. by destruct (Js.truthy_str (Js.trim text)).
Qed.

Lemma parseCSV_needs_two_lines_witness :
  contains LF "question,option1,option2,option3,option4,correctIndex,points" = false
  ∧ parseCSV "question,option1,option2,option3,option4,correctIndex,points" = [].
Proof.
  split; [reflexivity|]. apply parseCSV_needs_two_lines. reflexivity.
Defined.

Lemma assign_lookup (h v : string) (obj : gmap string string) (k : string) :
  assign h v obj !! k
  = if decide (h = k ∧ h ≠ "__proto__") then Some v else obj !! k.
Proof.
  unfold assign. destruct (String.eqb_spec h "__proto__") as [->|Hne].
  - by rewrite decide_False by (by intros [_ ?]).
  - rewrite lookup_insert. by repeat case_decide; try tauto.
Qed.







(** *** No cell holds a comma or a line feed *)

Lemma contains_skip_ws (c : ascii) (s : string) :
  contains c (Js.skip_ws s) = true → contains c s = true.
Proof.
  induction s as [|c' s IH]; [done|]. cbn [Js.skip_ws contains].
  destruct (Js.is_ws c'); [|done].
  intros ->%IH. apply orb_true_r.
Qed.

Lemma contains_rev_app (c : ascii) (s1 s2 : string) :
  contains c (String.rev_app s1 s2) = contains c s1 || contains c s2.
Proof.
  revert s2. induction s1 as [|c' s1 IH]; intros s2; [done|].
  cbn [String.rev_app contains]. rewrite IH. cbn [contains].
  by destruct (Ascii.eqb c' c), (contains c s1), (contains c s2).
Qed.

Lemma contains_trim (c : ascii) (s : string) :
  contains c s = false → contains c (Js.trim s) = false.
Proof.
  intros Hs. unfold Js.trim, String.rev.
  destruct (contains c (String.rev_app _ "")) eqn:H; [|done].
  rewrite contains_rev_app, orb_false_r in H.
  apply contains_skip_ws in H.
  rewrite contains_rev_app, orb_false_r in H.
  apply contains_skip_ws in H. congruence.
Qed.

Lemma cons_head_Forall (P : string → Prop) (c : ascii) (pieces : list string) :
  (∀ s, P s → P (String c s)) → P "" → Forall P pieces →
  Forall P (cons_head c pieces).
Proof.
  intros Hc H0 [|piece rest Hp Hrest]; cbn [cons_head]; repeat constructor; auto.
Qed.

(** The pieces of a split hold neither the separator nor any character the
    text does not hold. *)
Lemma split_on_pieces (sep c : ascii) (s : string) :
  Forall (fun piece => contains sep piece = false
                       ∧ (contains c s = false → contains c piece = false))
         (split_on sep s).
Proof.
  induction s as [|c' s IH]; cbn [split_on].
  - by repeat constructor.
  - destruct (Ascii.eqb c' sep) eqn:Hsep.
    + constructor; [done|]. eapply Forall_impl; [exact IH|].
      cbn. intros piece [H1 H2]. split; [done|].
      cbn [contains]. by intros [_ ?]%orb_false_elim; auto.
    + assert (IH' : Forall (fun piece => contains sep piece = false
                    ∧ (contains c (String c' s) = false → contains c piece = false))
                    (split_on sep s)).
      { eapply Forall_impl; [exact IH|]. cbn. intros piece [H1 H2].
        split; [done|]. cbn [contains]. by intros [_ ?]%orb_false_elim; auto. }
      apply cons_head_Forall; [| |exact IH'].
      * intros piece [H1 H2]. cbn [contains]. rewrite Hsep, H1. split; [done|].
        intros H. pose proof H as [Hc _]%orb_false_elim.
        by rewrite Hc, (H2 H).
      * split; [done|]. by intros _.
Qed.

Lemma split_lines_pieces (s : string) :
  Forall (fun piece => contains LF piece = false) (split_lines s).
Proof.
  assert (H : ∀ n s, (String.length s ≤ n)%nat →
            Forall (fun piece => contains LF piece = false) (split_lines s)).
  { clear s. induction n as [|n IH]; intros [|c s] Hlen; cbn [String.length] in Hlen;
      try lia; try (by repeat constructor).
    cbn [split_lines]. destruct (Ascii.eqb c LF) eqn:Hc.
    - constructor; [done|]. apply IH. lia.
    - assert (Hcons : Forall (fun piece => contains LF piece = false)
                        (cons_head c (split_lines s))).
      { apply cons_head_Forall; [|done|apply IH; lia].
        intros piece Hp. cbn [contains]. by rewrite Hc, Hp. }
      destruct s as [|c' s']; [exact Hcons|].
      destruct (_ && _); [|exact Hcons].
      constructor; [done|]. apply IH. cbn [String.length] in Hlen. lia. }
  by apply (H (String.length s)).
Qed.

Lemma fill_object_values (P : string → Prop) (cols : list string) (i : nat)
    (headers : list string) (obj : gmap string string) :
  P "" → Forall P cols → (∀ k v, obj !! k = Some v → P v) →
  ∀ k v, fill_object cols i headers obj !! k = Some v → P v.
Proof.
  intros H0 Hcols. revert i obj.
  induction headers as [|h hs IH]; intros i obj Hobj; cbn [fill_object]; [done|].
  apply IH. intros k v. rewrite assign_lookup.
  case_decide; [|by apply Hobj]. intros [= <-].
  destruct (cols !! i) as [cell|] eqn:Hcell; [|done].
  by eapply Forall_lookup_1 in Hcell.
Qed.

(** X13: no value of a record holds a comma or a line feed: a field is cut
    at every comma, whatever surrounds it. *)
Theorem parseCSV_values_hold_no_separator (text : string)
    (r : gmap string string) (k v : string) :
  r ∈ parseCSV text → r !! k = Some v →
  contains "," v = false ∧ contains LF v = false.
Proof.
  unfold parseCSV, csvLines.
  destruct (List.filter _ _) as [|header rows] eqn:Hlines;
    [by intros ?%elem_of_nil|].
  intros (line & -> & Hline)%list_elem_of_fmap.
  assert (Hno : contains LF line = false).
  { assert (Hin : line ∈ List.filter Js.truthy_str (map Js.trim (split_lines text))).
    { rewrite Hlines. by right. }
    apply list_elem_of_In, filter_In in Hin as [Hin _].
    apply in_map_iff in Hin as (piece & <- & Hin%list_elem_of_In).
    apply contains_trim.
    by eapply (proj1 (Forall_forall _ _) (split_lines_pieces text)). }
  revert k v.
  apply (fill_object_values
           (fun v => contains "," v = false ∧ contains LF v = false));
    [done| |by intros ?? ?%lookup_empty_Some].
  unfold cells. apply Forall_forall. intros cell (piece & -> & Hp)%list_elem_of_fmap.
  pose proof (proj1 (Forall_forall _ _) (split_on_pieces "," LF line) piece Hp)
    as [H1 H2].
  split; apply contains_trim; auto.
Qed.

Lemma parseCSV_values_hold_no_separator_witness :
  let r := default ∅ (head (parseCSV demo_csv)) in
  r ∈ parseCSV demo_csv
  ∧ r !! "option2" = Some "Paris"
  ∧ contains "," "Paris" = false ∧ contains LF "Paris" = false.
Proof.
  cbn zeta.
  assert (H : default ∅ (head (parseCSV demo_csv)) ∈ parseCSV demo_csv).
  { vm_compute. apply list_elem_of_here. }
  assert (Hv : default ∅ (head (parseCSV demo_csv)) !! "option2" = Some "Paris")
    by (vm_compute; reflexivity).
  split; [exact H|]. split; [exact Hv|].
  apply (parseCSV_values_hold_no_separator demo_csv _ "option2" "Paris" H Hv).
Defined.

(** ** Loading a bank *)

Lemma csvToQuestions_well_formed (records : list (gmap string string)) :
  Forall well_formed_question (csvToQuestions records).
Proof.
  apply Forall_forall. intros q (r & _ & -> & Hk)%csvToQuestions_elem.
  unfold keepQuestion in Hk.
  apply andb_prop in Hk as [[Ht Hl]%andb_prop Ho].
  unfold well_formed_question. split_and!.
  - by apply truthy_str_ne.
  - by apply Nat.eqb_eq.
  - apply Forall_forall. intros o Ho'%list_elem_of_In.
    rewrite forallb_forall in Ho. by apply truthy_str_ne, Ho.
  - unfold toQuestion; cbn [correctIndex]. lia.
  - unfold toQuestion; cbn [correctIndex]. lia.
  - unfold toQuestion, Js.or_num, DEFAULT_POINTS; cbn [points].
    destruct (Js.parseInt (r !! "points")) as [n|]; [|done].
    destruct (Z.eqb_spec n 0); lia.
Qed.

(** What [loadQuestions] does for a list of records. *)
Lemma loadQuestions_effect (rnd : nat → draw)
    (records : list (gmap string string)) (p : Page) :
  let qs := csvToQuestions records in
  let p' := loadQuestions rnd records p in
  (qs = [] → p' = p)
  ∧ (qs ≠ [] →
     questions (st p') ≡ₚ qs
     ∧ currentIndex (st p') = -1
     ∧ optionButtons (ui p') = 0%nat
     ∧ teams (st p') = teams (st p)
     ∧ same_tallies (st p) (st p')
     ∧ selectedOptionIndex (st p') = selectedOptionIndex (st p)
     ∧ selectedTeamId (st p') = selectedTeamId (st p)
     ∧ quizStarted (st p') = quizStarted (st p)).
Proof.
  cbn zeta. unfold loadQuestions.
  destruct (csvToQuestions records) as [|q qs] eqn:E; [by split|].
  split; [done|]. intros _.
  cbn [length Nat.eqb clearOptionsUI with_options st ui questions currentIndex
       optionButtons teams selectedOptionIndex selectedTeamId quizStarted].
  split_and!; try done. apply shuffled_Permutation.
Qed.

(** X14: loading a text whose rows give no valid question (or a failed
    request) leaves the page as it is.  Otherwise the page holds the valid
    questions of the text, each once, in some order; the position is
    rewound to -1 and the option buttons are removed, while the roster, the
    tallies, the two selections and the started flag are kept.  The load
    button of the earlier revision does the same with the trimmed content of
    its text area, and nothing when that is empty. *)
Theorem load_stores_valid_questions (rnd : nat → draw) (text : string) (p : Page) :
  let qs := csvToQuestions (parseCSV text) in
  let p' := loadQuestionsFromRepo rnd (Some text) p in
  loadQuestionsFromRepo rnd None p = p
  ∧ (qs = [] → p' = p)
  ∧ (qs ≠ [] →
     questions (st p') ≡ₚ qs
     ∧ currentIndex (st p') = -1
     ∧ optionButtons (ui p') = 0%nat
     ∧ teams (st p') = teams (st p)
     ∧ same_tallies (st p) (st p')
     ∧ selectedOptionIndex (st p') = selectedOptionIndex (st p)
     ∧ selectedTeamId (st p') = selectedTeamId (st p)
     ∧ quizStarted (st p') = quizStarted (st p))
  ∧ (∀ value,
       loadCsvClick rnd value p
       = if decide (Js.trim value = "") then p
         else loadQuestionsFromRepo rnd (Some (Js.trim value)) p).
Proof.
  cbn zeta. split; [done|].
  destruct (loadQuestions_effect rnd (parseCSV text) p) as [H1 H2].
  split; [exact H1|]. split; [exact H2|].
  intros value. unfold loadCsvClick, loadQuestionsFromRepo.
  case_decide as Ht.
  - by rewrite Ht.
  - by apply truthy_str_ne in Ht as ->.
Qed.

(** X15: whatever the text of the bank and whatever is clicked afterwards,
    every question the page holds has a non-empty text, exactly four
    non-empty options, a correct index between 0 and 3 and points other than
    0. *)
Theorem questions_always_well_formed (v : revision) (rnd : nat → draw)
    (response : option string) (b : bool) (es : list Event) :
  Forall well_formed_question
         (questions (st (run v es (loadQuestionsFromRepo rnd response (initialPage b))))).
Proof.
  rewrite run_questions. destruct response as [text|]; [|by constructor].
  cbn [loadQuestionsFromRepo].
  destruct (loadQuestions_effect rnd (parseCSV text) (initialPage b)) as [H1 H2].
  destruct (csvToQuestions (parseCSV text)) as [|q qs] eqn:E.
  - rewrite H1 by done. by constructor.
  - destruct H2 as (Hperm & _); [done|].
    rewrite Hperm, <- E. apply csvToQuestions_well_formed.
Qed.

(** X16: a bank without a valid question cannot be played: the load leaves
    the fresh page as it is, and every click on Start is then refused. *)
Theorem empty_bank_cannot_start (v : revision) (rnd : nat → draw) (text : string)
    (b : bool) (inputs : list string) :
  csvToQuestions (parseCSV text) = [] →
  let p := loadQuestionsFromRepo rnd (Some text) (initialPage b) in
  p = initialPage b
  ∧ step v (ClickStart inputs) p = p
  ∧ quizStarted (st (step v (ClickStart inputs) p)) = false.
Proof.
  intros Hqs. cbn zeta.
  destruct (loadQuestions_effect rnd (parseCSV text) (initialPage b)) as [H1 _].
  cbn [loadQuestionsFromRepo]. rewrite (H1 Hqs).
  cbn [step]. unfold startQuiz.
  destruct (_ =? _)%nat; by cbn.
Qed.

Lemma empty_bank_cannot_start_witness :
  let text := "question,option1,option2,option3,option4,correctIndex,points" in
  csvToQuestions (parseCSV text) = []
  ∧ step Current (ClickStart ["Red"; "Blue"])
      (loadQuestionsFromRepo demo_rnd (Some text) (initialPage true))
    = initialPage true.
Proof.
  cbn zeta. split; [reflexivity|].
  destruct (empty_bank_cannot_start Current demo_rnd
              "question,option1,option2,option3,option4,correctIndex,points"
              true ["Red"; "Blue"] eq_refl) as (H1 & H2 & _).
  by rewrite H2.
Defined.

(** X17 (earlier revision): a bank loaded while an option is selected rewinds
    the position to -1 but keeps the selection, so the next click on a team
    button reads a question that does not exist: the listener ends in an
    exception, with the team recorded and no tally changed. *)
Theorem load_mid_question_breaks_team_click (rnd : nat → draw) (value t : string)
    (p : Page) :
  is_Some (selectedOptionIndex (st p)) →
  t ≠ "" →
  csvToQuestions (parseCSV (Js.trim value)) ≠ [] →
  let p' := loadCsvClick rnd value p in
  currentIndex (st p') = -1
  ∧ teamClick Earlier t p' = Throws (select_team t p')
  ∧ same_tallies (st p) (st (settle (teamClick Earlier t p'))).
Proof.
  intros [opt Ho] Ht Hqs. cbn zeta.
  assert (Hload : loadCsvClick rnd value p
                  = loadQuestions rnd (parseCSV (Js.trim value)) p).
  { unfold loadCsvClick.
    destruct (Js.truthy_str (Js.trim value)) eqn:Hv; [done|].
    exfalso. apply Hqs.
    assert (Js.trim value = "") as ->; [|done].
    destruct (decide (Js.trim value = "")) as [|Hne]; [done|].
    apply truthy_str_ne in Hne. congruence. }
  rewrite Hload.
  destruct (loadQuestions_effect rnd (parseCSV (Js.trim value)) p) as [_ H2].
  destruct (H2 Hqs) as (_ & Hci & _ & _ & Htal & Hopt & _).
  split; [exact Hci|].
  assert (Hthrow : teamClick Earlier t (loadQuestions rnd (parseCSV (Js.trim value)) p)
            = Throws (select_team t (loadQuestions rnd (parseCSV (Js.trim value)) p))).
  { unfold teamClick, maybeScore, nothing_to_score.
    cbn [select_team st selectedOptionIndex selectedTeamId questions currentIndex].
    rewrite Hopt, Ho, Hci. apply truthy_str_ne in Ht as ->. cbn [negb].
    unfold Js.index. by cbn. }
  split; [exact Hthrow|]. rewrite Hthrow. cbn [settle select_team st].
  exact Htal.
Qed.

Lemma load_mid_question_breaks_team_click_witness :
  let p := run Earlier [ClickStart ["Red"; "Blue"]; ClickOption 2] demo_page in
  let p' := loadCsvClick demo_rnd demo_csv p in
  is_Some (selectedOptionIndex (st p))
  ∧ "team-0" ∈ teamButtons (ui p')
  ∧ csvToQuestions (parseCSV (Js.trim demo_csv)) ≠ []
  ∧ currentIndex (st p') = -1
  ∧ teamClick Earlier "team-0" p' = Throws (select_team "team-0" p').
Proof.
  cbn zeta.
  assert (Ho : is_Some (selectedOptionIndex
            (st (run Earlier [ClickStart ["Red"; "Blue"]; ClickOption 2] demo_page))))
    by (vm_compute; eauto).
  assert (Hqs : csvToQuestions (parseCSV (Js.trim demo_csv)) ≠ [])
    by (vm_compute; congruence).
  assert (Ht : "team-0" ≠ "") by congruence.
  split; [exact Ho|]. split; [vm_compute; apply list_elem_of_here|].
  split; [exact Hqs|].
  destruct (load_mid_question_breaks_team_click demo_rnd demo_csv "team-0" _ Ho Ht Hqs)
    as (H1 & H2 & _).
  split; [exact H1|exact H2].
Defined.

(** ** The team editor *)

(** X18: the team editor starts with three rows and never has fewer than one:
    the remove button of the only row does nothing.  Adding a row adds one,
    removing removes at most one, typing changes none. *)
Theorem editor_never_empty (es : list EditorEvent) :
  (1 ≤ length (foldl (fun ed e => editor_step e ed) initTeams es))%nat
  ∧ (∀ ed e, (length ed - 1 ≤ length (editor_step e ed) ≤ length ed + 1)%nat)
  ∧ (∀ i name, editor_step (ClickRemoveTeam i) [name] = [name]).
Proof.
  assert (Hstep : ∀ ed e,
            (length ed - 1 ≤ length (editor_step e ed) ≤ length ed + 1)%nat
            ∧ ((1 ≤ length ed)%nat → (1 ≤ length (editor_step e ed))%nat)).
  { intros ed [|i|i value]; cbn [editor_step].
    - unfold addTeamRow. rewrite length_app. cbn [length]. lia.
    - destruct (Nat.ltb_spec i (length ed)); [|lia].
      unfold removeTeamRow. destruct (Nat.leb_spec (length ed) 1); [lia|].
      rewrite length_delete by (by apply lookup_lt_is_Some_2). lia.
    - rewrite length_insert. lia. }
  split_and!.
  - assert (H : ∀ ed, (1 ≤ length ed)%nat →
              (1 ≤ length (foldl (fun ed e => editor_step e ed) ed es))%nat).
    { induction es as [|e es IH]; intros ed Hed; [done|].
      cbn [foldl]. apply IH. by apply Hstep. }
    apply H. cbn. lia.
  - intros ed e. apply Hstep.
  - intros [|i] name; reflexivity.
Qed.

(** ** Decimal cells *)

Lemma digit_of_pretty_char (d : N) :
  (d < 10)%N →
  Js.digit_of (pretty_N_char d) = Some (Z.of_N d)
  ∧ Js.is_ws (pretty_N_char d) = false
  ∧ pretty_N_char d ≠ "-"%char ∧ pretty_N_char d ≠ "+"%char.
Proof.
  intros Hd.
  assert (d = 0 ∨ d = 1 ∨ d = 2 ∨ d = 3 ∨ d = 4 ∨ d = 5 ∨ d = 6 ∨ d = 7
          ∨ d = 8 ∨ d = 9)%N as H by lia.
  repeat destruct H as [->|H]; try subst d; by repeat split.
Qed.

(** The digits written for a positive number read back as that number,
    after whatever was read before them. *)
Lemma digits_prefix_pretty_go (x : N) :
  (0 < x)%N →
  ∃ k, 0 ≤ k ∧ ∀ acc s,
    Js.digits_prefix acc (pretty_N_go x s)
    = Js.digits_prefix (Some (default 0 acc * 10 ^ k + Z.of_N x)) s.
Proof.
  induction (N.lt_wf_0 x) as [x _ IH]. intros Hx.
  assert (Hm : (x `mod` 10 < 10)%N) by (apply N.mod_lt; lia).
  destruct (digit_of_pretty_char _ Hm) as (Hd & _).
  pose proof (N.div_mod x 10 ltac:(lia)) as Hdm.
  destruct (decide (x `div` 10 = 0)%N) as [Hq|Hq].
  - exists 1. split; [lia|]. intros acc s.
    rewrite pretty_N_go_step, Hq, pretty_N_go_0 by done.
    cbn [Js.digits_prefix]. rewrite Hd. f_equal. f_equal.
    rewrite Hq in Hdm. rewrite Z.pow_1_r. generalize (default 0 acc). lia.
  - destruct (IH (x `div` 10)%N) as (k & Hk & Hgo);
      [apply N.div_lt; lia|lia|].
    exists (k + 1). split; [lia|]. intros acc s.
    rewrite pretty_N_go_step, Hgo by done.
    cbn [Js.digits_prefix]. rewrite Hd. cbn [default]. f_equal. f_equal.
    unfold Datatypes.id. rewrite Z.pow_add_r, Z.pow_1_r by lia.
    generalize (default 0 acc) (10 ^ k). intros a b.
    assert (Z.of_N x = 10 * Z.of_N (x `div` 10) + Z.of_N (x `mod` 10)) by lia.
    generalize dependent (Z.of_N (x `div` 10)).
    generalize (Z.of_N (x `mod` 10)). intros. nia.
Qed.

Lemma pretty_go_first_char (x : N) (s : string) :
  (0 < x)%N → ∃ d s', (d < 10)%N ∧ pretty_N_go x s = String (pretty_N_char d) s'.
Proof.
  revert s. induction (N.lt_wf_0 x) as [x _ IH]. intros s Hx.
  rewrite pretty_N_go_step by done.
  destruct (decide (x `div` 10 = 0)%N) as [Hq|Hq].
  - rewrite Hq, pretty_N_go_0. eexists _, _. split; [|done].
    apply N.mod_lt. lia.
  - apply IH; [apply N.div_lt; lia|by apply N.neq_0_lt_0].
Qed.

Lemma parseInt_unsigned (c : ascii) (s : string) :
  Js.is_ws c = false → c ≠ "-"%char → c ≠ "+"%char →
  Js.parseInt (Some (String c s)) = Js.digits_prefix None (String c s).
Proof.
  intros Hws Hminus Hplus. unfold Js.parseInt.
  change (default "undefined" (Some (String c s))) with (String c s).
  cbn [Js.skip_ws]. rewrite Hws.
  assert ((match String c s with
           | String "-" r => (-1, r)
           | String "+" r => (1, r)
           | _ => (1, String c s)
           end) = (1, String c s)) as ->.
  { destruct c as [[] [] [] [] [] [] [] []]; done. }
  destruct (Js.digits_prefix None (String c s)) as [n|]; [|done].
  cbn. f_equal. lia.
Qed.

Lemma parseInt_minus (s : string) :
  Js.parseInt (Some (String "-" s))
  = (fun n => - n) <$> Js.digits_prefix None s.
Proof.
  unfold Js.parseInt.
  change (default "undefined" (Some (String "-" s))) with (String "-" s).
  change (Js.skip_ws (String "-" s)) with (String "-" s). cbv iota beta.
  by destruct (Js.digits_prefix None s) as [n|].
Qed.

Lemma parseInt_pretty_positive (x : positive) :
  Js.digits_prefix None (pretty x) = Some (Zpos x)
  ∧ Js.parseInt (Some (pretty x)) = Some (Zpos x).
Proof.
  unfold pretty, pretty_positive, pretty, pretty_N.
  destruct (decide (N.pos x = 0%N)) as [|_]; [done|].
  destruct (digits_prefix_pretty_go (N.pos x)) as (k & _ & Hgo); [lia|].
  assert (Hdigits : Js.digits_prefix None (pretty_N_go (N.pos x) "") = Some (Zpos x)).
  { rewrite Hgo. cbn [Js.digits_prefix default]. by f_equal. }
  split; [exact Hdigits|].
  destruct (pretty_go_first_char (N.pos x) "") as (d & s' & Hd & Hs); [lia|].
  destruct (digit_of_pretty_char d Hd) as (_ & Hws & Hminus & Hplus).
  rewrite Hs in Hdigits |- *. by rewrite parseInt_unsigned.
Qed.

(** X19: a cell that holds a safe integer written in decimal is read as
    that integer.  So a [correctIndex] cell from 1 to 4 selects the option
    with the index one less, and a [points] cell that holds a safe integer
    other than 0 gives exactly those points. *)
Theorem parseInt_reads_decimal (z : Z) (r : gmap string string) :
  safe_integer z →
  Js.parseInt (Some (pretty z)) = Some z
  ∧ (r !! "correctIndex" = Some (pretty z) → 1 ≤ z ≤ 4 →
     correctIndex (toQuestion r) = z - 1)
  ∧ (r !! "points" = Some (pretty z) → z ≠ 0 → points (toQuestion r) = z).
Proof.
  intros _.
  assert (Hparse : Js.parseInt (Some (pretty z)) = Some z).
  { destruct z as [|x|x]; [done|apply parseInt_pretty_positive|].
    destruct (parseInt_pretty_positive x) as [Hd _].
    change (pretty (Z.neg x)) with (String "-" (pretty x)).
    by rewrite parseInt_minus, Hd. }
  split; [exact Hparse|]. split.
  - intros Hr Hz. unfold toQuestion; cbn [correctIndex]. rewrite Hr, Hparse.
    unfold Js.or_num. destruct (Z.eqb_spec z 0); lia.
  - intros Hr Hz. unfold toQuestion; cbn [points]. rewrite Hr, Hparse.
    unfold Js.or_num. destruct (Z.eqb_spec z 0); lia.
Qed.

Lemma parseInt_reads_decimal_witness :
  let r := record_of "Q" "a" "b" "c" "d" "3" "250" in
  safe_integer 250
  ∧ Js.parseInt (Some "250") = Some 250
  ∧ r !! "points" = Some "250"
  ∧ points (toQuestion r) = 250.
Proof.
  cbn zeta.
  assert (Hsafe : safe_integer 250) by (vm_compute; congruence).
  destruct (parseInt_reads_decimal 250 (record_of "Q" "a" "b" "c" "d" "3" "250") Hsafe)
    as (H1 & _ & H3).
  split; [exact Hsafe|]. split; [exact H1|].
  split; [reflexivity|]. apply H3; [reflexivity|lia].
Defined.

(** ** The standings table on the page *)

Lemma renderStandings_ext (s s' : State) :
  teams s' = teams s → same_tallies s s' →
  renderStandings s' = renderStandings s.
Proof.
  intros Ht (Hs & Ha & Hc). unfold renderStandings. rewrite Ht. f_equal.
  apply map_ext. intros t. unfold standingsRow. by rewrite Hs, Ha, Hc.
Qed.

Lemma table_current_same (p p' : Page) :
  table_current p →
  quizStarted (st p') = quizStarted (st p) →
  teams (st p') = teams (st p) →
  same_tallies (st p) (st p') →
  standingsBody (ui p') = standingsBody (ui p) →
  table_current p'.
Proof.
  intros Hp Hq Ht Htal Hbody Hq'. rewrite Hbody.
  rewrite (renderStandings_ext (st p) (st p')) by done.
  apply Hp. congruence.
Qed.

Lemma maybeScore_table_current (p : Page) :
  table_current p → table_current (settle (maybeScore p)).
Proof.
  intros Hp.
  destruct (maybeScore_cases p)
    as [[_ ->]|[(_ & -> & _)|(opt & sel & q & team & _ & _ & _ & _ & _ & _ & ->)]];
    [done..|].
  by intros _.
Qed.

Lemma confirmScore_table_current (p : Page) :
  table_current p → table_current (settle (confirmScore p)).
Proof.
  intros Hp. unfold confirmScore.
  destruct (nothing_to_score (st p)); [done|].
  pose proof (maybeScore_table_current p Hp) as H.
  destruct (maybeScore p); exact H.
Qed.

Lemma goToNextQuestion_standings (v : revision) (p : Page) :
  standingsBody (ui (settle (goToNextQuestion v p))) = standingsBody (ui p).
Proof.
  unfold goToNextQuestion.
  destruct (_ || _); [done|]. destruct (_ <=? _); [done|].
  unfold renderQuestion. destruct v; cbn [st with_submit]; by destruct (Js.index _ _).
Qed.

Lemma step_table_current (v : revision) (e : Event) (p : Page) :
  table_current p → table_current (step v e p).
Proof.
  intros Hp. destruct e as [inputs|c| |i|t|]; cbn [step].
  - unfold startQuiz.
    destruct (_ =? _)%nat; [done|].
    destruct (Nat.eqb_spec (length (questions (st p))) 0); [done|].
    match goal with |- context [goToNextQuestion v ?p1] =>
      destruct (goToNextQuestion_advance v p1) as (p' & q & -> & _) end;
      cbn [st quizStarted currentIndex questions]; [done|lia|lia|by intros _].
  - unfold resetQuiz. destruct c; [|done]. by intros ?.
  - destruct (goToNextQuestion_state v p) as (_ & Hq & Hts & Htal & _).
    by apply (table_current_same p); [| | | |apply goToNextQuestion_standings].
  - destruct (_ && _); [|done].
    destruct (optionClick_position v i p) as [(_ & _ & Hq & Hts) Htal].
    apply (table_current_same p); try done.
    unfold optionClick. destruct (negb _); [done|].
    destruct v; cbn [settle]; [|done].
    by destruct (checkSubmitButtonState_ui (select_option (Z.of_nat i) p))
      as (_ & _ & _ & ->).
  - destruct (bool_decide _); [|done].
    unfold teamClick. destruct v; cbn [settle].
    + apply (table_current_same p); try done.
      * by rewrite checkSubmitButtonState_st.
      * by rewrite checkSubmitButtonState_st.
      * rewrite checkSubmitButtonState_st. by repeat split.
      * by destruct (checkSubmitButtonState_ui (select_team t p))
          as (_ & _ & _ & ->).
    + apply maybeScore_table_current.
      by apply (table_current_same p).
  - destruct v; [|done]. destruct (submitDisabled _); [done|].
    by apply confirmScore_table_current.
Qed.

(** X20: in every state reached by clicks from a freshly loaded page, as
    long as a quiz is started the table shown on the page is the standings
    of the current state: it is redrawn by every change of a tally and no
    other click makes it stale. *)
Theorem table_shows_current_standings (v : revision) (qs : list Question)
    (b : bool) (es : list Event) :
  let p := run v es (bootPage qs b) in
  quizStarted (st p) = true →
  standingsBody (ui p) = renderStandings (st p).
Proof.
  cbn zeta.
  assert (H : ∀ p, table_current p → table_current (run v es p)).
  { induction es as [|e es IH]; intros p Hp; [done|].
    rewrite run_cons. by apply IH, step_table_current. }
  apply H. by intros ?.
Qed.

Lemma table_shows_current_standings_witness :
  let es := [ClickStart ["Red"; "Blue"]; ClickOption 2; ClickTeam "team-1";
             ClickSubmit; ClickNext; ClickTeam "team-0"] in
  let p := run Current es (bootPage demo_questions true) in
  quizStarted (st p) = true
  ∧ standingsBody (ui p) = renderStandings (st p)
  ∧ map row_name (standingsBody (ui p)) = ["Blue"; "Red"].
Proof.
  cbn zeta.
  assert (Hq : quizStarted (st (run Current
            [ClickStart ["Red"; "Blue"]; ClickOption 2; ClickTeam "team-1";
             ClickSubmit; ClickNext; ClickTeam "team-0"]
            (bootPage demo_questions true))) = true) by reflexivity.
  split; [exact Hq|].
  split; [exact (table_shows_current_standings Current demo_questions true _ Hq)|].
  vm_compute. reflexivity.
Defined.

(** ** Which clicks score *)

Lemma confirmScore_st (p : Page) :
  st (settle (confirmScore p)) = st (settle (maybeScore p)).
Proof.
  unfold confirmScore.
  destruct (maybeScore_cases p)
    as [[-> ->]|[(-> & -> & _)|(?&?&?&?&Ho&Hs&Hne&?&?&?&Hm)]]; [done..|].
  rewrite Hm. unfold nothing_to_score. rewrite Ho, Hs.
  by apply truthy_str_ne in Hne as ->.
Qed.

(** X21: in the current revision only a click on Submit or on Start changes
    a tally: choosing an option, choosing a team, going to the next question
    and resetting never do.  In the earlier revision the same holds with the
    team buttons in the place of Submit. *)
Theorem only_submission_changes_tallies (p : Page) (e : Event) :
  not_start e = true →
  (e ≠ ClickSubmit → same_tallies (st p) (st (step Current e p)))
  ∧ ((∀ t, e ≠ ClickTeam t) → same_tallies (st p) (st (step Earlier e p))).
Proof.
  intros He.
  assert (Hcommon : ∀ v, e ≠ ClickSubmit → (∀ t, e ≠ ClickTeam t) →
            same_tallies (st p) (st (step v e p))).
  { intros v Hs Ht. destruct e as [inputs|c| |i|t|]; try done; cbn [step].
    - unfold resetQuiz. by destruct c.
    - by destruct (goToNextQuestion_state v p) as (_ & _ & _ & ? & _).
    - destruct (_ && _); [|done]. by destruct (optionClick_position v i p).
    - by destruct (Ht t). }
  split.
  - intros Hs. destruct e as [inputs|c| |i|t|]; try (by apply Hcommon).
    cbn [step]. destruct (bool_decide _); [|done].
    cbn [teamClick settle]. by rewrite checkSubmitButtonState_st.
  - intros Ht. destruct e as [inputs|c| |i|t|]; try (by apply Hcommon).
    done.
Qed.

Lemma only_submission_changes_tallies_witness :
  let p := run Current (first_answer Current) demo_page in
  not_start (ClickTeam "team-1") = true
  ∧ same_tallies (st p) (st (step Current (ClickTeam "team-1") p)).
Proof.
  cbn zeta. split; [reflexivity|].
  apply (only_submission_changes_tallies _ (ClickTeam "team-1") eq_refl).
  discriminate.
Defined.

(** ** Scores stay non-negative *)

Lemma index_elem {A} (l : list A) (i : Z) (x : A) :
  Js.index l i = Some x → x ∈ l.
Proof.
  unfold Js.index. destruct (i <? 0); [done|]. apply list_elem_of_lookup_2.
Qed.

Lemma maybeScore_scores_nonneg (p : Page) :
  Forall (fun q => 0 ≤ points q) (questions (st p)) →
  scores_nonneg (st p) → scores_nonneg (st (settle (maybeScore p))).
Proof.
  intros Hqs Hp.
  destruct (maybeScore_cases p)
    as [[_ ->]|[(_ & -> & _)|(opt & sel & q & team & _ & _ & _ & Hq & _ & _ & ->)]];
    [done..|].
  cbn [settle st with_standings]. intros k z.
  unfold tally; cbn [scores].
  destruct (opt =? correctIndex q); [|apply Hp].
  rewrite lookup_insert. case_decide; [|apply Hp].
  destruct (scores (st p) !! sel) as [[z0|]|] eqn:Hz0; cbn [add_num]; [|done..].
  intros [= <-]. apply Hp in Hz0.
  apply index_elem in Hq.
  pose proof (proj1 (Forall_forall _ _) Hqs q Hq) as Hpts. cbn in Hpts.
  unfold Js.or_num, DEFAULT_POINTS. destruct (points q =? 0); lia.
Qed.

Lemma step_scores_nonneg (v : revision) (e : Event) (p : Page) :
  Forall (fun q => 0 ≤ points q) (questions (st p)) →
  scores_nonneg (st p) → scores_nonneg (st (step v e p)).
Proof.
  intros Hqs Hp.
  assert (Hsame : ∀ s', same_tallies (st p) s' → scores_nonneg s').
  { intros s' (Hs & _) k z. rewrite Hs. apply Hp. }
  destruct e as [inputs|c| |i|t|].
  - destruct (startQuiz_tallies v inputs p) as [->|[_ Hz]]; [done|].
    intros k z Hk. destruct (Hz k) as (Hs & _). rewrite Hs in Hk.
    case_bool_decide; by simplify_eq.
  - cbn [step]. unfold resetQuiz. by destruct c.
  - cbn [step]. apply Hsame.
    by destruct (goToNextQuestion_state v p) as (_ & _ & _ & ? & _).
  - cbn [step]. destruct (_ && _); [|done].
    apply Hsame. by destruct (optionClick_position v i p).
  - cbn [step]. destruct (bool_decide _); [|done].
    unfold teamClick. destruct v; cbn [settle].
    + by rewrite checkSubmitButtonState_st.
    + by apply maybeScore_scores_nonneg.
  - cbn [step]. destruct v; [|done]. destruct (submitDisabled _); [done|].
    rewrite confirmScore_st. by apply maybeScore_scores_nonneg.
Qed.

(** X22: when no question of the bank has negative points, no score is ever
    negative, whatever is clicked. *)
Theorem scores_never_negative (v : revision) (qs : list Question) (b : bool)
    (es : list Event) :
  Forall (fun q => 0 ≤ points q) qs →
  scores_nonneg (st (run v es (bootPage qs b))).
Proof.
  intros Hqs.
  assert (H : ∀ p, Forall (fun q => 0 ≤ points q) (questions (st p)) →
            scores_nonneg (st p) → scores_nonneg (st (run v es p))).
  { induction es as [|e es IH]; intros p Hq Hp; [done|].
    rewrite run_cons. apply IH; [|by apply step_scores_nonneg].
    by rewrite <- (run_questions v [e] p) in Hq. }
  apply H; [done|]. intros k z Hk.
  cbn [bootPage st scores] in Hk. by apply lookup_empty_Some in Hk.
Qed.

Lemma scores_never_negative_witness :
  Forall (fun q => 0 ≤ points q) demo_questions
  ∧ scores_nonneg
      (st (run Current (first_answer Current ++ answer_again Current)
             (bootPage demo_questions true))).
Proof.
  assert (H : Forall (fun q => 0 ≤ points q) demo_questions).
  { repeat constructor; cbn; lia. }
  split; [exact H|]. apply (scores_never_negative Current _ true _ H).
Defined.

(** ** Choosing again *)

(** X23: choosing replaces the earlier choice and leaves no other trace:
    two clicks on option buttons leave the page as the second alone would,
    in both revisions, and so do two clicks on team buttons in the current
    revision. *)
Theorem later_choice_replaces_earlier (v : revision) (p : Page) :
  (∀ i j, (i < optionButtons (ui p))%nat → (j < optionButtons (ui p))%nat →
          step v (ClickOption j) (step v (ClickOption i) p)
          = step v (ClickOption j) p)
  ∧ (∀ t u, t ∈ teamButtons (ui p) → u ∈ teamButtons (ui p) →
            step Current (ClickTeam u) (step Current (ClickTeam t) p)
            = step Current (ClickTeam u) p).
Proof.
  split.
  - intros i j Hi Hj. cbn [step].
    destruct (Nat.ltb_spec i (optionButtons (ui p))); [|lia].
    destruct (Nat.ltb_spec j (optionButtons (ui p))); [|lia]. cbn [andb].
    destruct (optionsDisabled (ui p)) eqn:Hdis; cbn [negb].
    { rewrite Hdis. by destruct (j <? _)%nat. }
    unfold optionClick.
    destruct (quizStarted (st p)) eqn:Hq; cbn [negb settle].
    { destruct v; cbn [settle].
      - destruct (checkSubmitButtonState_ui (select_option (Z.of_nat i) p))
          as (-> & -> & _). rewrite checkSubmitButtonState_st.
        cbn [select_option st ui quizStarted]. rewrite Hdis, Hq.
        destruct (Nat.ltb_spec j (optionButtons (ui p))); [|lia].
        cbn [negb andb settle].
        unfold checkSubmitButtonState, select_option, with_submit;
          cbn [st ui selectedOptionIndex selectedTeamId questions currentIndex
               teams scores answeredCount correctCount quizStarted
               optionButtons optionsDisabled teamButtons standingsBody].
        by destruct (selectedTeamId (st p)).
      - cbn [select_option st ui quizStarted]. rewrite Hdis, Hq.
        destruct (Nat.ltb_spec j (optionButtons (ui p))); [|lia].
        by cbn [negb andb settle]. }
    rewrite Hdis, Hq.
    destruct (Nat.ltb_spec j (optionButtons (ui p))); [|lia].
    by cbn [negb andb settle].
  - intros t u Ht Hu. cbn [step]. rewrite (bool_decide_eq_true_2 _ Ht).
    unfold teamClick; cbn [settle].
    destruct (checkSubmitButtonState_ui (select_team t p)) as (_ & _ & -> & _).
    cbn [select_team ui]. rewrite (bool_decide_eq_true_2 _ Hu).
    unfold checkSubmitButtonState, select_team, with_submit;
      cbn [st ui selectedOptionIndex selectedTeamId questions currentIndex
           teams scores answeredCount correctCount quizStarted
           optionButtons optionsDisabled teamButtons standingsBody].
    by destruct (selectedOptionIndex (st p)).
Qed.
